(** * The credential subsystem of server.js

    A shallow embedding of the authentication code of [server.js]
    (the [hardball.auth] table, [generatePasswordHash], [userIsAuthorized]
    and the handlers of [/api/auth/login] and [/api/auth/register]) and of
    the news feed handlers that rely on it ([/api/posts] and its create,
    modify and delete routes), followed by the properties established
    about them.

    Conventions.
    - JavaScript values that reach the handlers are values of [jsval].
    - The node-postgres pool and client, [crypto.randomBytes] and the
      Express response object are the effects of an [io] program: every
      call that takes a callback in the source is a constructor carrying
      its continuation, so a handler reads like the nesting of callbacks
      it embeds.
    - PBKDF2 itself is Node's; it is a variable of [Section Derivation].
    - [console.log] and [console.error] are not modelled. *)

From Stdlib Require Import List String Ascii ZArith NArith Bool Lia.
From Stdlib Require Import Strings.Byte.
From Stdlib Require Import DecimalString.
From Stdlib Require Import Permutation Sorted.
Import ListNotations.

Local Open Scope string_scope.
Local Open Scope Z_scope.

(* ================================================================= *)
(** ** JavaScript values *)

(** The values a JSON request body, a header or a result row can hold.
    [JObject] stands for an object or an array and carries the text the
    pg driver binds for it when it is used as a query parameter; numbers
    are the integral ones that JavaScript prints in plain decimal digits.
    Strings are sequences of bytes: the colon and the empty string, the
    only things the code looks for in a string, mean the same in UTF-8 and
    in UTF-16. *)
Inductive jsval : Type :=
| JUndefined
| JNull
| JBool (b : bool)
| JNum (z : Z)
| JString (s : string)
| JObject (bound : string).

(** [!v] is [negb (truthy v)]. *)
Definition truthy (v : jsval) : bool :=
  match v with
  | JUndefined | JNull => false
  | JBool b => b
  | JNum z => negb (z =? 0)
  | JString s => negb (String.eqb s "")
  | JObject _ => true
  end.

(** [a === b] on the values compared in this file. *)
Definition strict_eq (a b : jsval) : bool :=
  match a, b with
  | JUndefined, JUndefined => true
  | JNull, JNull => true
  | JBool x, JBool y => Bool.eqb x y
  | JNum x, JNum y => x =? y
  | JString x, JString y => String.eqb x y
  | _, _ => false
  end.

(** An object literal passed to [res.json]: its fields in source order. *)
Definition json : Type := list (string * jsval).

(** The exceptions that can escape a handler. *)
Inductive exn : Type :=
| TypeError (what : string)
| StoreError.

(* ================================================================= *)
(** ** Strings and buffers *)

(** [s.split(c)]: every occurrence of [c] separates two segments; the
    result is never empty. *)
Fixpoint split (c : ascii) (s : string) : list string :=
  match s with
  | EmptyString => [EmptyString]
  | String a rest =>
      if Ascii.eqb a c then EmptyString :: split c rest
      else match split c rest with
           | seg :: segs => String a seg :: segs
           | [] => [String a EmptyString]
           end
  end.

(** [arr[i]]: [undefined] past the end. *)
Definition index (segs : list string) (i : nat) : jsval :=
  match nth_error segs i with
  | Some s => JString s
  | None => JUndefined
  end.

Definition hex_digit (n : N) : ascii :=
  match n with
  | 0%N => "0" | 1%N => "1" | 2%N => "2" | 3%N => "3"
  | 4%N => "4" | 5%N => "5" | 6%N => "6" | 7%N => "7"
  | 8%N => "8" | 9%N => "9" | 10%N => "a" | 11%N => "b"
  | 12%N => "c" | 13%N => "d" | 14%N => "e" | _ => "f"
  end%char.

Definition hex_of_byte (b : byte) : string :=
  let n := Byte.to_N b in
  String (hex_digit (n / 16)) (String (hex_digit (n mod 16)) EmptyString).

(** [buf.toString('hex')] *)
Fixpoint toString_hex (buf : list byte) : string :=
  match buf with
  | [] => EmptyString
  | b :: rest => hex_of_byte b ++ toString_hex rest
  end.

Definition is_lower_hex (a : ascii) : bool :=
  let n := N_of_ascii a in
  ((48 <=? n) && (n <=? 57) || (97 <=? n) && (n <=? 102))%N.

Fixpoint all_chars (p : ascii -> bool) (s : string) : bool :=
  match s with
  | EmptyString => true
  | String a rest => p a && all_chars p rest
  end.

(* ================================================================= *)
(** ** The table hardball.auth *)

(** One row. [salt], [token] and [pass_hash] are nullable text columns. *)
Record row : Type := mkRow {
  id : Z;
  username : string;
  salt : option string;
  token : option string;
  pass_hash : option string
}.

Definition table : Type := list row.

(** The value pg hands to JavaScript for a nullable text column. *)
Definition col (c : option string) : jsval :=
  match c with
  | Some s => JString s
  | None => JNull
  end.

(** The schema is not part of the repository; the handlers rely on
    [username] being unique (source comment: "username is a unique value,
    can only return 1 row") and on [id] identifying a row. *)
Definition store_wf (t : table) : Prop :=
  NoDup (map username t) /\ NoDup (map id t).

(** What pg binds for a parameter: [undefined] and [null] become SQL NULL,
    everything else is sent as text. *)
Definition prepareValue (v : jsval) : option string :=
  match v with
  | JUndefined | JNull => None
  | JBool true => Some "true"
  | JBool false => Some "false"
  | JNum z => Some (NilZero.string_of_int (Z.to_int z))
  | JString s => Some s
  | JObject bound => Some bound
  end.

(** [column = $n] in a WHERE clause: never true against NULL. *)
Definition sql_eq (column param : option string) : bool :=
  match column, param with
  | Some a, Some b => String.eqb a b
  | _, _ => false
  end.

(** The statements the authentication code sends, one constructor per SQL
    text of the source, with the values bound to its parameters. *)
Inductive statement : Type :=
| SelectAuth (user tok : jsval)
    (* SELECT id FROM hardball.auth WHERE username=$1 AND token=$2; *)
| SelectLogin (name : jsval)
    (* SELECT salt, token, pass_hash FROM hardball.auth WHERE username = $1; *)
| SelectRegistration (name : jsval)
    (* SELECT id, username, token FROM hardball.auth WHERE username = $1; *)
| UpdateAuth (newSalt newToken newHash : string) (rowId : Z)
    (* UPDATE hardball.auth SET salt = $1, token = $2, pass_hash = $3 WHERE id = $4; *)
| Begin
| Commit
| Rollback.

Definition by_username (name : jsval) (r : row) : bool :=
  sql_eq (Some (username r)) (prepareValue name).

Definition by_username_token (user tok : jsval) (r : row) : bool :=
  sql_eq (Some (username r)) (prepareValue user)
  && sql_eq (token r) (prepareValue tok).

(** The SET clause of the UPDATE on one row. *)
Definition set_credentials (newSalt newToken newHash : string) (rowId : Z)
    (r : row) : row :=
  if id r =? rowId
  then mkRow (id r) (username r) (Some newSalt) (Some newToken) (Some newHash)
  else r.

(** A write a transaction has made and not yet committed. *)
Definition write : Type := (string * string * string * Z)%type.

Definition apply_write (w : write) (t : table) : table :=
  let '(s, k, h, i) := w in map (set_credentials s k h i) t.

(** Writes are kept newest first. *)
Definition apply_writes (ws : list write) (t : table) : table :=
  fold_right apply_write t ws.

(** The rows a SELECT returns from the table it sees. A result row is the
    stored row; the handlers read only the columns their SELECT lists. *)
Definition select (s : statement) (t : table) : list row :=
  match s with
  | SelectAuth user tok => filter (by_username_token user tok) t
  | SelectLogin name => filter (by_username name) t
  | SelectRegistration name => filter (by_username name) t
  | _ => []
  end.

(* ================================================================= *)
(** ** Handlers as programs over the store *)

(** What a query callback receives: [(err, result)]. *)
Inductive qresult : Type :=
| QError
| QRows (rows : list row).

Definition is_err (r : qresult) : bool :=
  match r with QError => true | QRows _ => false end.

Definition rows_of (r : qresult) : list row :=
  match r with QError => [] | QRows rows => rows end.

(** A handler: each constructor with a continuation is a call of the
    source that takes a callback (or is awaited). *)
Inductive io (A : Type) : Type :=
| Ret (a : A)
| Throw (e : exn)
| PoolQuery (s : statement) (k : qresult -> io A)    (* POOL.query(text, values, cb) *)
| PoolConnect (k : bool -> io A)                     (* POOL.connect(cb): cb(err, client, done) *)
| ClientQuery (s : statement) (k : qresult -> io A)  (* client.query(text, values, cb) *)
| Release (k : io A)                                 (* done() *)
| RandomBytes (n : nat) (k : list byte -> io A)      (* crypto.randomBytes(n) *)
| Respond (status : Z) (body : json) (k : io A).     (* res.status(status).json(body) *)

Arguments Ret {A} a.
Arguments Throw {A} e.
Arguments PoolQuery {A} s k.
Arguments PoolConnect {A} k.
Arguments ClientQuery {A} s k.
Arguments Release {A} k.
Arguments RandomBytes {A} n k.
Arguments Respond {A} status body k.

Fixpoint bind {A B : Type} (p : io A) (f : A -> io B) : io B :=
  match p with
  | Ret a => f a
  | Throw e => Throw e
  | PoolQuery s k => PoolQuery s (fun r => bind (k r) f)
  | PoolConnect k => PoolConnect (fun e => bind (k e) f)
  | ClientQuery s k => ClientQuery s (fun r => bind (k r) f)
  | Release k => Release (bind k f)
  | RandomBytes n k => RandomBytes n (fun b => bind (k b) f)
  | Respond status body k => Respond status body (bind k f)
  end.

Notation "x <- p ;; q" := (bind p (fun x => q))
  (at level 61, p at next level, right associativity).

(** [obj[key]] on a parsed request body: [undefined] when the key is
    absent. *)
Fixpoint prop (obj : json) (key : string) : jsval :=
  match obj with
  | [] => JUndefined
  | (k, v) :: rest => if String.eqb k key then v else prop rest key
  end.

Section Derivation.

(** PBKDF2 as Node computes it on two strings:
    [pbkdf2 password salt iterations keylen digest] is the derived key. *)
Variable pbkdf2 : string -> string -> N -> nat -> string -> list byte.

(** [crypto.pbkdf2Sync]: a password or a salt that is not a string (no
    Buffer can come out of a JSON body or a text column) is rejected with
    a TypeError. *)
Definition pbkdf2Sync (password salt : jsval) (iterations : N)
    (keylen : nat) (digest : string) : exn + list byte :=
  match password, salt with
  | JString p, JString s => inr (pbkdf2 p s iterations keylen digest)
  | JString _, _ => inl (TypeError "salt")
  | _, _ => inl (TypeError "password")
  end.

Definition generatePasswordHash (secret salt : jsval) : exn + string :=
  match pbkdf2Sync secret salt 100000 64 "sha256" with
  | inr hash => inr (toString_hex hash)
  | inl e => inl e
  end.

Definition userIsAuthorized (auth : string) : io bool :=
  let split := split ":" auth in
  let user := index split 0 in
  let token := index split 1 in
  PoolQuery (SelectAuth user token) (fun r =>
    match r with
    | QError => Throw StoreError
    | QRows rows => Ret (List.length rows =? 1)%nat
    end).

Definition invalid_credentials (name : jsval) : json :=
  [("user", name); ("status", JNum 401);
   ("error", JString "Either the username or password is incorrect")].

(** app.post("/api/auth/login") *)
Definition login (body : json) : io unit :=
  let name := prop body "username" in
  let pass := prop body "password" in
  PoolQuery (SelectLogin name) (fun r =>
    match r with
    | QError => Throw StoreError
    | QRows [row0] =>
        let salt := col (salt row0) in
        let pass_hash := col (pass_hash row0) in
        match generatePasswordHash pass salt with
        | inl e => Throw e
        | inr candidate =>
            if strict_eq (JString candidate) pass_hash
            then Respond 200 [("user", name); ("status", JNum 200);
                              ("token", col (token row0))] (Ret tt)
            else Respond 401 (invalid_credentials name) (Ret tt)
        end
    | QRows _ => Respond 401 (invalid_credentials name) (Ret tt)
    end).

(** The cleanup closure of the register handler: on an error it sends
    ROLLBACK, whose callback releases the client, and answers [true]. *)
Definition shouldAbort (r : qresult) : io bool :=
  if is_err r
  then ClientQuery Rollback (fun _ => Release (Ret true))
  else Ret false.

(** app.post("/api/auth/register") *)
Definition register (body : json) : io unit :=
  let name := prop body "username" in
  let pass := prop body "password" in
  PoolConnect (fun err =>
    (* [err] is not inspected; on a failed connect [client] is undefined
       and [client.query] throws *)
    if err then Throw (TypeError "client") else
    ClientQuery Begin (fun r =>
      abort <- shouldAbort r ;;
      if abort : bool then Ret tt else
      ClientQuery (SelectRegistration name) (fun r =>
        abort <- shouldAbort r ;;
        if abort : bool then Ret tt else
        match rows_of r with
        | row0 :: _ =>
            if negb (truthy (col (token row0))) then
              let rowId := id row0 in
              RandomBytes 32 (fun tokenBytes =>
              let token := toString_hex tokenBytes in
              RandomBytes 32 (fun saltBytes =>
              let salt := toString_hex saltBytes in
              match generatePasswordHash pass (JString salt) with
              | inl e => Throw e
              | inr passHash =>
                  ClientQuery (UpdateAuth salt token passHash rowId) (fun r =>
                    abort <- shouldAbort r ;;
                    if abort : bool then Ret tt else
                    ClientQuery Commit (fun _ =>
                      (* a COMMIT error is only logged *)
                      Release
                        (Respond 201 [("user", name); ("status", JNum 201)]
                           (Ret tt))))
              end))
            else
              Release
                (Respond 409 [("status", JNum 409);
                              ("error", JString "User is already registered!")]
                   (Ret tt))
        | [] =>
            Release
              (Respond 403 [("status", JNum 403);
                            ("error", JString "This user is not allowed to register!")]
                 (Ret tt))
        end))).

End Derivation.

(* ================================================================= *)
(** ** The store and the execution of a handler *)

(** Which calls to the store report an error. A statement that reports an
    error has had no effect on the committed table. *)
Record faults : Type := mkFaults {
  f_connect : bool;
  f_begin : bool;
  f_select : bool;
  f_update : bool;
  f_commit : bool;
  f_rollback : bool
}.

Definition no_faults : faults := mkFaults false false false false false false.

Definition pending (x : option (list write)) : list write :=
  match x with Some ws => ws | None => [] end.

(** One statement on a connection whose open transaction, if any, holds the
    writes [x], against the committed table [t]. A SELECT sees the committed
    rows and the transaction's own writes (PostgreSQL's default isolation,
    READ COMMITTED: the source sends a plain BEGIN). *)
Definition exec (f : faults) (s : statement) (t : table)
    (x : option (list write)) : qresult * table * option (list write) :=
  match s with
  | Begin =>
      if f_begin f then (QError, t, x)
      else (QRows [], t, Some (pending x))
  | Commit =>
      if f_commit f then (QError, t, None)
      else (QRows [], apply_writes (pending x) t, None)
  | Rollback =>
      ((if f_rollback f then QError else QRows []), t, None)
  | UpdateAuth newSalt newToken newHash rowId =>
      if f_update f then (QError, t, x)
      else match x with
           | Some ws =>
               (QRows [], t, Some ((newSalt, newToken, newHash, rowId) :: ws))
           | None =>
               (QRows [], apply_write (newSalt, newToken, newHash, rowId) t, None)
           end
  | _ =>
      if f_select f then (QError, t, x)
      else (QRows (select s (apply_writes (pending x) t)), t, x)
  end.

(** What a request owns while it runs: its client's transaction, the bytes
    [crypto.randomBytes] will hand out, how often [done] was called and what
    was sent on [res]. *)
Record session : Type := mkSession {
  txn : option (list write);
  entropy : list (list byte);
  released : nat;
  responses : list (Z * json)
}.

Definition fresh (e : list (list byte)) : session := mkSession None e 0%nat [].

(** [crypto.randomBytes(n)]: [n] bytes taken from the supply. *)
Definition draw (n : nat) (e : list (list byte)) : list byte * list (list byte) :=
  match e with
  | [] => (repeat x00 n, [])
  | b :: rest => (firstn n (b ++ repeat x00 n), rest)
  end.

(** A handler run to its end with no other request in flight. *)
Fixpoint run {A : Type} (f : faults) (p : io A) (t : table) (s : session)
    : table * session * (exn + A) :=
  match p with
  | Ret a => (t, s, inr a)
  | Throw e => (t, s, inl e)
  | PoolQuery q k =>
      let '(r, t', _) := exec f q t None in run f (k r) t' s
  | PoolConnect k => run f (k (f_connect f)) t s
  | ClientQuery q k =>
      let '(r, t', x') := exec f q t (txn s) in
      run f (k r) t' (mkSession x' (entropy s) (released s) (responses s))
  | Release k =>
      run f k t (mkSession (txn s) (entropy s) (S (released s)) (responses s))
  | RandomBytes n k =>
      let '(b, e') := draw n (entropy s) in
      run f (k b) t (mkSession (txn s) e' (released s) (responses s))
  | Respond status body k =>
      run f k t (mkSession (txn s) (entropy s) (released s)
                   (responses s ++ [(status, body)]))
  end.

(** The outcome of one request: the table afterwards, what was sent to the
    caller, and the exception that escaped, if any. *)
Record outcome : Type := mkOutcome {
  table_after : table;
  sent : list (Z * json);
  thrown : option exn;
  done_calls : nat
}.

Definition handle (f : faults) (p : io unit) (t : table)
    (e : list (list byte)) : outcome :=
  let '(t', s, r) := run f p t (fresh e) in
  mkOutcome t' (responses s)
    (match r with inl x => Some x | inr _ => None end) (released s).

(** The promise [userIsAuthorized] returns: the boolean it resolves to, or
    the error it rejects with. *)
Definition authorize (f : faults) (t : table) (auth : string) : exn + bool :=
  snd (run f (userIsAuthorized auth) t (fresh [])).

(* ----------------------------------------------------------------- *)
(** *** Requests in flight together *)

(** Node runs one callback at a time; between two callbacks of a request,
    callbacks of other requests may run. Each request in flight holds its
    own client. *)
Record world : Type := mkWorld {
  w_table : table;
  w_clients : list (io unit * session)
}.

Definition writes_row (rowId : Z) (c : io unit * session) : bool :=
  existsb (fun w : write => snd w =? rowId) (pending (txn (snd c))).

(** An UPDATE waits while another open transaction holds a write on the
    same row. *)
Definition blocked (p : io unit) (others : list (io unit * session)) : bool :=
  match p with
  | ClientQuery (UpdateAuth _ _ _ rowId) _ => existsb (writes_row rowId) others
  | _ => false
  end.

(** The next callback of one request. *)
Definition advance (f : faults) (p : io unit) (t : table) (s : session)
    : table * (io unit * session) :=
  match p with
  | Ret _ | Throw _ => (t, (p, s))
  | PoolQuery q k =>
      let '(r, t', _) := exec f q t None in (t', (k r, s))
  | PoolConnect k => (t, (k (f_connect f), s))
  | ClientQuery q k =>
      let '(r, t', x') := exec f q t (txn s) in
      (t', (k r, mkSession x' (entropy s) (released s) (responses s)))
  | Release k =>
      (t, (k, mkSession (txn s) (entropy s) (S (released s)) (responses s)))
  | RandomBytes n k =>
      let '(b, e') := draw n (entropy s) in
      (t, (k b, mkSession (txn s) e' (released s) (responses s)))
  | Respond status body k =>
      (t, (k, mkSession (txn s) (entropy s) (released s)
                (responses s ++ [(status, body)])))
  end.

Definition step (f : faults) (i : nat) (w : world) : world :=
  match nth_error (w_clients w) i with
  | None => w
  | Some (p, s) =>
      let others := (firstn i (w_clients w) ++ skipn (S i) (w_clients w))%list in
      if blocked p others then w
      else
        let '(t', c') := advance f p (w_table w) s in
        mkWorld t' (firstn i (w_clients w) ++ c' :: skipn (S i) (w_clients w))
  end.

(** A schedule names, callback by callback, the request that runs next. *)
Definition schedule (f : faults) (order : list nat) (w : world) : world :=
  fold_left (fun w i => step f i w) order w.

Definition finished (c : io unit * session) : bool :=
  match fst c with
  | Ret _ | Throw _ => true
  | _ => false
  end.

Definition statuses (w : world) : list (list Z) :=
  map (fun c : io unit * session => map fst (responses (snd c))) (w_clients w).

(* ----------------------------------------------------------------- *)
(** *** The answers of the register handler *)

Definition forbidden : Z * json :=
  (403, [("status", JNum 403);
         ("error", JString "This user is not allowed to register!")]).

Definition conflict : Z * json :=
  (409, [("status", JNum 409);
         ("error", JString "User is already registered!")]).

Definition created (name : jsval) : Z * json :=
  (201, [("user", name); ("status", JNum 201)]).

(** Rows are provisioned with a NULL token and registration stores 64
    hexadecimal characters: no operation puts an empty string there. *)
Definition no_empty_token (t : table) : Prop :=
  forall r, In r t -> token r <> Some "".

(* ----------------------------------------------------------------- *)
(** *** The operations of the subsystem, one after another *)

Inductive operation : Type :=
| OpRegister (body : json)
| OpLogin (body : json)
| OpAuthorize (auth : string).

Section History.

Variable pbkdf2 : string -> string -> N -> nat -> string -> list byte.

(** The table one operation leaves behind. *)
Definition perform (f : faults) (e : list (list byte)) (op : operation)
    (t : table) : table :=
  match op with
  | OpRegister body => table_after (handle f (register pbkdf2 body) t e)
  | OpLogin body => table_after (handle f (login pbkdf2 body) t e)
  | OpAuthorize auth => fst (fst (run f (userIsAuthorized auth) t (fresh [])))
  end.

(** Any number of operations, each with its own store faults and random
    bytes. *)
Definition after (history : list (faults * list (list byte) * operation))
    (t : table) : table :=
  fold_left (fun t h => let '(f, e, op) := h in perform f e op t) history t.

End History.

(* ----------------------------------------------------------------- *)
(** *** The authorization contract in the specification's words *)

Fixpoint contains (c : ascii) (s : string) : bool :=
  match s with
  | EmptyString => false
  | String a rest => Ascii.eqb a c || contains c rest
  end.

(** The two components "obtained by splitting the string at its first
    colon only"; none when the delimiter is missing. *)
Fixpoint spec_split_first (c : ascii) (s : string) : option (string * string) :=
  match s with
  | EmptyString => None
  | String a rest =>
      if Ascii.eqb a c then Some (EmptyString, rest)
      else match spec_split_first c rest with
           | Some (u, k) => Some (String a u, k)
           | None => None
           end
  end.

(** "true iff a row exists whose username and token exactly match both
    components; false for malformed input (missing delimiter, empty
    parts) or no match". *)
Definition spec_authorize (t : table) (auth : string) : bool :=
  match spec_split_first ":" auth with
  | Some (u, k) =>
      negb (String.eqb u "") && negb (String.eqb k "")
      && existsb (fun r => String.eqb (username r) u
                           && sql_eq (token r) (Some k)) t
  | None => false
  end.

(* ----------------------------------------------------------------- *)
(** *** Sample data *)

(** A stand-in derivation for the concrete runs below: [keylen] bytes that
    depend on the lengths of the password and of the salt. *)
Definition sample_kdf (password salt : string) (iterations : N)
    (keylen : nat) (digest : string) : list byte :=
  repeat (if Nat.even (String.length password + String.length salt)
          then x2a else x2b) keylen.

Definition sample_salt : string := toString_hex (repeat x02 32).
Definition sample_token : string := toString_hex (repeat x01 32).

(** A registered user and a provisioned one. *)
Definition alice : row :=
  mkRow 1 "alice" (Some sample_salt) (Some sample_token)
    (Some (toString_hex (sample_kdf "secret" sample_salt 100000 64 "sha256"))).

Definition bob : row := mkRow 2 "bob" None None None.

Definition sample_table : table := [alice; bob].


Definition credentials (name password : string) : json :=
  [("username", JString name); ("password", JString password)].

(** Two registrations for bob's provisioned row, in flight together. *)
Definition race_world
    (pbkdf2 : string -> string -> N -> nat -> string -> list byte) : world :=
  mkWorld [bob]
    [(register pbkdf2 (credentials "bob" "pw1"),
      fresh [repeat x01 32; repeat x02 32]);
     (register pbkdf2 (credentials "bob" "pw2"),
      fresh [repeat x03 32; repeat x04 32])].

(** Both requests get their connection, BEGIN and SELECT (and draw their
    random bytes in the SELECT callback) before either one's UPDATE; then
    the first runs UPDATE and COMMIT and answers, then the second. *)
Definition race_order : list nat :=
  [0; 0; 0; 0; 0;  1; 1; 1; 1; 1;  0; 0; 0; 0;  1; 1; 1; 1]%nat.


(* ================================================================= *)
(** ** The news feed: hardball.posts and its handlers *)

(** One row of hardball.posts: the columns [id], [title], [body],
    [publish_date] and [create_date]. The dates are bigint columns (source
    comment: "postgreSQL is using bigint data type to store ms
    timestamp"). *)
Record post : Type := mkPost {
  post_id : Z;
  post_title : option string;
  post_body : option string;
  publish_date : option Z;
  create_date : option Z
}.

(** A result row of [SELECT id, title, body, publish_date]. *)
Record listed : Type := mkListed {
  l_id : Z;
  l_title : option string;
  l_body : option string;
  l_publish_date : option Z
}.

Definition listing (p : post) : listed :=
  mkListed (post_id p) (post_title p) (post_body p) (publish_date p).

(** Both tables of the database. *)
Record site : Type := mkSite {
  auth_table : table;
  posts_table : list post
}.

(** The statements that change hardball.posts, with the values bound to
    their parameters. *)
Inductive post_statement : Type :=
| InsertPost (title body publishDate createDate : jsval)
    (* INSERT INTO hardball.posts (title, body, publish_date, create_date)
       VALUES ($1, $2, $3, $4); *)
| UpdatePost (title body publishDate : jsval) (postId : string)
    (* UPDATE hardball.posts SET title = $1, body = $2, publish_date = $3
       WHERE id = $4; *)
| DeletePost (postId : string).
    (* DELETE FROM hardball.posts WHERE id = $1; *)

(** What [res.json] is given by the post handlers: plain values, the
    request's own body, a route parameter, or result rows. *)
Inductive field : Type :=
| Val (v : jsval)
| Obj (o : json)
| Rows (rows : list listed).

Definition reply : Type := (Z * list (string * field))%type.

Definition unauthorized : reply :=
  (401, [("error", Val (JString "Unauthorized!"))]).

Definition unexpected : reply :=
  (500, [("error", Val (JString "An unexpected error occured!"))]).

Definition invalid_data : reply :=
  (400, [("status", Val (JNum 400)); ("error", Val (JString "Data is invalid"))]).

(** [name in req.headers] and [req.headers[name]]: Node keeps one value
    per header name, in lower case. *)
Fixpoint header (headers : list (string * string)) (name : string)
    : option string :=
  match headers with
  | [] => None
  | (k, v) :: rest => if String.eqb k name then Some v else header rest name
  end.

Definition has_key (o : json) (key : string) : bool :=
  existsb (fun kv : string * jsval => String.eqb (fst kv) key) o.

(** [o.hasOwnProperty(key)] on a parsed JSON body: the method is
    Object.prototype's unless the body has an own property of that name,
    which, coming from JSON, cannot be called. *)
Definition hasOwnProperty (o : json) (key : string) : exn + bool :=
  if has_key o "hasOwnProperty" then inl (TypeError "hasOwnProperty")
  else inr (has_key o key).

(** [o.hasOwnProperty(k1) && o.hasOwnProperty(k2) && ...] *)
Fixpoint has_all (o : json) (keys : list string) : exn + bool :=
  match keys with
  | [] => inr true
  | k :: rest =>
      match hasOwnProperty o k with
      | inl e => inl e
      | inr false => inr false
      | inr true => has_all o rest
      end
  end.

(** NULLS FIRST, then larger dates first: PostgreSQL's ORDER BY ... DESC. *)
Definition newer_first (a b : option Z) : bool :=
  match a, b with
  | None, _ => true
  | Some _, None => false
  | Some x, Some y => y <=? x
  end.

(** The order of the rows of a listing. *)
Definition by_date (a b : listed) : Prop :=
  newer_first (l_publish_date a) (l_publish_date b) = true.

(** [publish_date BETWEEN lo AND hi]: never true of a NULL date. *)
Definition between (lo hi : Z) (p : post) : bool :=
  match publish_date p with
  | Some d => (lo <=? d) && (d <=? hi)
  | None => false
  end.

Section Posts.

(** The store's side of the news feed. The schema of hardball.posts is not
    part of the repository, so what an INSERT, UPDATE or DELETE makes of the
    table is left to the store: [mutate st t] is the table afterwards, or
    nothing when the store reports an error. [int8in] is PostgreSQL's
    reading of a text parameter as a bigint (nothing when it rejects the
    text), and [order_desc] its ORDER BY publish_date DESC, which is free
    in how it lists equal dates. *)
Variable mutate : post_statement -> list post -> option (list post).
Variable int8in : string -> option Z.
Variable order_desc : list post -> list post.

(** A parameter compared with a bigint column: an error when the text is
    not a bigint, NULL for [null] and [undefined]. *)
Definition bind_int8 (v : jsval) : option (option Z) :=
  match prepareValue v with
  | None => Some None
  | Some text =>
      match int8in text with
      | Some z => Some (Some z)
      | None => None
      end
  end.

(** SELECT id, title, body, publish_date FROM hardball.posts
    WHERE publish_date BETWEEN $1 AND $2 ORDER BY publish_date DESC;
    the rows, or nothing when the query fails. [down] says that the store
    reports an error of its own; a comparison with NULL is true of no
    row. *)
Definition select_posts (down : bool) (lo hi : jsval) (t : list post)
    : option (list listed) :=
  if down then None
  else match bind_int8 lo, bind_int8 hi with
       | Some (Some x), Some (Some y) =>
           Some (map listing (order_desc (filter (between x y) t)))
       | Some _, Some _ => Some []
       | _, _ => None
       end.

(** app.get("/api/posts"): [query] is [req.query]. An error of the query
    is thrown from the callback. *)
Definition getPosts (down : bool) (query : json) (s : site) : exn + reply :=
  let start := if truthy (prop query "start") then prop query "start"
               else JNum (-9007199254740991) in
  let end_ := if truthy (prop query "end") then prop query "end"
              else JNum 9007199254740991 in
  match select_posts down start end_ (posts_table s) with
  | None => inl StoreError
  | Some rows =>
      let posts := fold_left (fun posts row => posts ++ [row])%list rows [] in
      inr (200, [("posts", Rows posts)])
  end.

(** ['authorization' in req.headers &&
     await userIsAuthorized(req.headers['authorization'])]:
    the value of the condition, or the error the awaited promise rejects
    with. *)
Definition authorization (f : faults) (headers : list (string * string))
    (s : site) : site * (exn + bool) :=
  match header headers "authorization" with
  | None => (s, inr false)
  | Some auth =>
      let '(t, _, r) := run f (userIsAuthorized auth) (auth_table s) (fresh []) in
      (mkSite t (posts_table s), r)
  end.

(** [await POOL.query(text, values)] for a statement on hardball.posts,
    followed by the answer that reports success. A rejected promise is
    caught by the handler's [.catch], which answers 500. *)
Definition query_then (st : post_statement) (ok : reply) (s : site)
    : site * reply :=
  match mutate st (posts_table s) with
  | Some posts => (mkSite (auth_table s) posts, ok)
  | None => (s, unexpected)
  end.

(** app.post("/api/posts/create") *)
Definition createPost (f : faults) (headers : list (string * string))
    (newPost : json) (s : site) : site * reply :=
  let '(s1, ok) := authorization f headers s in
  match ok with
  | inl _ => (s1, unexpected)
  | inr true =>
      match has_all newPost ["title"; "body"; "publishDate"; "createDate"] with
      | inl _ => (s1, unexpected)
      | inr true =>
          query_then
            (InsertPost (prop newPost "title") (prop newPost "body")
               (prop newPost "publishDate") (prop newPost "createDate"))
            (201, [("status", Val (JNum 201)); ("post", Obj newPost)]) s1
      | inr false => (s1, invalid_data)
      end
  | inr false => (s1, unauthorized)
  end.

(** app.put("/api/posts/modify/:postId") *)
Definition modifyPost (f : faults) (headers : list (string * string))
    (postId : string) (post : json) (s : site) : site * reply :=
  let '(s1, ok) := authorization f headers s in
  match ok with
  | inl _ => (s1, unexpected)
  | inr true =>
      let id := postId in
      match has_all post ["title"; "body"; "publishDate"] with
      | inl _ => (s1, unexpected)
      | inr true =>
          query_then
            (UpdatePost (prop post "title") (prop post "body")
               (prop post "publishDate") id)
            (200, [("status", Val (JNum 200)); ("post", Obj post)]) s1
      | inr false => (s1, invalid_data)
      end
  | inr false => (s1, unauthorized)
  end.

(** app.delete("/api/posts/delete/:postId") *)
Definition deletePost (f : faults) (headers : list (string * string))
    (postId : string) (s : site) : site * reply :=
  let '(s1, ok) := authorization f headers s in
  match ok with
  | inl _ => (s1, unexpected)
  | inr true =>
      let id := postId in
      query_then (DeletePost id)
        (200, [("status", Val (JNum 200)); ("post", Val (JString id))]) s1
  | inr false => (s1, unauthorized)
  end.

End Posts.

(** The three credential columns of a row are set together or not at
    all. *)
Definition credentials_whole (r : row) : Prop :=
  (salt r = None /\ token r = None /\ pass_hash r = None)
  \/ (exists s k h, salt r = Some s /\ token r = Some k /\ pass_hash r = Some h).

(* ----------------------------------------------------------------- *)
(** *** Sample data for the news feed *)

(** A store for the concrete runs below: decimal bigints, an insertion
    sort, and a table that takes every well-typed statement. *)
Definition sample_int8in (text : string) : option Z :=
  if String.eqb text "" then None
  else match NilZero.int_of_string text with
       | Some d =>
           let z := Z.of_int d in
           if (-9223372036854775808 <=? z) && (z <=? 9223372036854775807)
           then Some z else None
       | None => None
       end.

Fixpoint insert_desc (p : post) (l : list post) : list post :=
  match l with
  | [] => [p]
  | q :: rest =>
      if newer_first (publish_date p) (publish_date q) then p :: l
      else q :: insert_desc p rest
  end.

Definition sample_order (l : list post) : list post :=
  fold_right insert_desc [] l.

Definition sample_date (v : jsval) : option (option Z) :=
  bind_int8 sample_int8in v.

Definition sample_mutate (st : post_statement) (t : list post)
    : option (list post) :=
  match st with
  | InsertPost title body publishDate createDate =>
      match sample_date publishDate, sample_date createDate with
      | Some p, Some c =>
          Some (t ++ [mkPost (1 + Z.of_nat (List.length t)) (prepareValue title)
                        (prepareValue body) p c])%list
      | _, _ => None
      end
  | UpdatePost title body publishDate postId =>
      match sample_date publishDate, sample_int8in postId with
      | Some p, Some i =>
          Some (map (fun r => if post_id r =? i
                              then mkPost (post_id r) (prepareValue title)
                                     (prepareValue body) p (create_date r)
                              else r) t)
      | _, _ => None
      end
  | DeletePost postId =>
      match sample_int8in postId with
      | Some i => Some (filter (fun r => negb (post_id r =? i)) t)
      | None => None
      end
  end.

Definition sample_posts : list post :=
  [mkPost 1 (Some "Opening day") (Some "Play ball") (Some 1523000000000)
     (Some 1522000000000);
   mkPost 2 (Some "Far future") (Some "Beyond the safe range")
     (Some 9007199254740993) (Some 1522000000000);
   mkPost 3 (Some "Playoffs") (Some "Bracket") (Some 1538000000000)
     (Some 1537000000000)].

Definition sample_site : site := mkSite sample_table sample_posts.

Definition alice_header : list (string * string) :=
  [("content-type", "application/json");
   ("authorization", "alice:" ++ sample_token)].

Definition sample_post : json :=
  [("title", JString "Trade deadline"); ("body", JString "Rumours");
   ("publishDate", JNum 1530000000000); ("createDate", JNum 1529000000000)].

(** Proof steps for concrete tables. *)
Ltac distinct := cbn; repeat constructor; cbn; intuition discriminate.

Ltac each_row :=
  let x := fresh "x" in
  let H := fresh "H" in
  intros x H; cbn in H;
  repeat (destruct H as [<-|H]; [try reflexivity; try discriminate|]);
  try contradiction.

(* ================================================================= *)
(** ** Hexadecimal encoding *)

Lemma string_length_app (a b : string) :
  String.length (a ++ b) = (String.length a + String.length b)%nat.
Proof. induction a as [|c a IH]; simpl; [reflexivity | now rewrite IH]. Qed.

Lemma all_chars_app (p : ascii -> bool) (a b : string) :
  all_chars p (a ++ b) = all_chars p a && all_chars p b.
Proof.
  induction a as [|c a IH]; simpl; [reflexivity|].
  now rewrite IH, andb_assoc.
Qed.

Lemma hex_of_byte_lower (b : byte) : all_chars is_lower_hex (hex_of_byte b) = true.
Proof. destruct b; reflexivity. Qed.

Lemma toString_hex_length (buf : list byte) :
  String.length (toString_hex buf) = (2 * List.length buf)%nat.
Proof.
  induction buf as [|b buf IH]; [reflexivity|].
  cbn [toString_hex]. rewrite string_length_app, IH. simpl. lia.
Qed.

Lemma toString_hex_lower (buf : list byte) :
  all_chars is_lower_hex (toString_hex buf) = true.
Proof.
  induction buf as [|b buf IH]; [reflexivity|].
  cbn [toString_hex]. now rewrite all_chars_app, hex_of_byte_lower, IH.
Qed.

Lemma draw_length (n : nat) (e : list (list byte)) :
  List.length (fst (draw n e)) = n.
Proof.
  destruct e as [|b rest]; simpl.
  - apply repeat_length.
  - rewrite length_firstn, length_app, repeat_length. lia.
Qed.

(* ================================================================= *)
(** ** Lookups by username *)

Lemma by_username_true (v : jsval) (r : row) :
  by_username v r = true <-> prepareValue v = Some (username r).
Proof.
  unfold by_username, sql_eq. destruct (prepareValue v) as [s|].
  - rewrite String.eqb_eq. split; congruence.
  - split; discriminate.
Qed.

Lemma filter_none {A} (p : A -> bool) (l : list A) :
  (forall x, In x l -> p x = false) -> filter p l = [].
Proof.
  induction l as [|a l IH]; intros H; [reflexivity|]. simpl.
  rewrite (H a (or_introl eq_refl)). apply IH. intros x Hx. apply H. now right.
Qed.

Lemma lookup_unique (v : jsval) (t : table) (r : row) :
  NoDup (map username t) -> In r t ->
  prepareValue v = Some (username r) ->
  filter (by_username v) t = [r].
Proof.
  intros Hnd Hin Hv. induction t as [|a t IH]; [contradiction|].
  simpl in Hnd. inversion Hnd as [|u us Hnotin Hnd']; subst.
  assert (Hrest : forall x, In x t -> username x <> username a).
  { intros x Hx E. apply Hnotin. rewrite <- E. now apply in_map. }
  simpl. destruct Hin as [->|Hin].
  - assert (E : by_username v r = true) by now apply by_username_true.
    rewrite E. f_equal. apply filter_none. intros x Hx.
    destruct (by_username v x) eqn:Ex; [|reflexivity].
    apply by_username_true in Ex. exfalso. apply (Hrest x Hx). congruence.
  - destruct (by_username v a) eqn:Ea.
    + apply by_username_true in Ea. exfalso. apply (Hrest r Hin). congruence.
    + now apply IH.
Qed.

(* ================================================================= *)
(** ** Secret derivation and login *)

Section DerivationFacts.

Variable pbkdf2 : string -> string -> N -> nat -> string -> list byte.

Lemma generatePasswordHash_strings (secret salt : string) :
  generatePasswordHash pbkdf2 (JString secret) (JString salt)
  = inr (toString_hex (pbkdf2 secret salt 100000 64 "sha256")).
Proof. reflexivity. Qed.

Lemma generatePasswordHash_not_string (secret salt : jsval) :
  (forall p, secret <> JString p) ->
  generatePasswordHash pbkdf2 secret salt = inl (TypeError "password").
Proof.
  intros H. destruct secret; try reflexivity. now destruct (H s).
Qed.

(** C8. On two strings the derivation is a function of its inputs alone:
    it returns the lowercase hexadecimal text of the key PBKDF2 derives
    with 100000 iterations (at least 100,000), always 128 characters for
    the 64 bytes requested, and equal inputs give equal outputs. *)
Theorem generatePasswordHash_deterministic_hex :
  (forall p s i k d, List.length (pbkdf2 p s i k d) = k) ->
  forall secret salt : string,
  exists hash : string,
    generatePasswordHash pbkdf2 (JString secret) (JString salt) = inr hash
    /\ (exists iterations : N,
           (100000 <= iterations)%N
           /\ hash = toString_hex (pbkdf2 secret salt iterations 64 "sha256"))
    /\ String.length hash = 128%nat
    /\ all_chars is_lower_hex hash = true
    /\ (forall secret' salt' : string,
           secret' = secret -> salt' = salt ->
           generatePasswordHash pbkdf2 (JString secret') (JString salt')
           = inr hash).
Proof.
  intros Hlen secret salt.
  exists (toString_hex (pbkdf2 secret salt 100000 64 "sha256")).
  split; [reflexivity|]. split.
  - exists 100000%N. split; [lia | reflexivity].
  - split; [now rewrite toString_hex_length, Hlen|].
    split; [apply toString_hex_lower|].
    now intros ? ? -> ->.
Qed.

(** What the login handler does once the lookup returned exactly the row
    [r]. *)
Lemma login_on_row (f : faults) (t : table) (e : list (list byte))
    (body : json) (r : row) :
  f_select f = false ->
  filter (by_username (prop body "username")) t = [r] ->
  handle f (login pbkdf2 body) t e
  = match generatePasswordHash pbkdf2 (prop body "password") (col (salt r)) with
    | inl x => mkOutcome t [] (Some x) 0
    | inr candidate =>
        if strict_eq (JString candidate) (col (pass_hash r))
        then mkOutcome t
               [(200, [("user", prop body "username"); ("status", JNum 200);
                       ("token", col (token r))])] None 0
        else mkOutcome t [(401, invalid_credentials (prop body "username"))]
               None 0
    end.
Proof.
  intros Hf Hrows. unfold handle, login. cbn [run exec select].
  rewrite Hf. cbn [apply_writes pending fold_right]. rewrite Hrows.
  destruct (generatePasswordHash pbkdf2 _ _) as [x|candidate]; [reflexivity|].
  destruct (strict_eq _ _); reflexivity.
Qed.

Lemma login_no_row (f : faults) (t : table) (e : list (list byte))
    (body : json) :
  f_select f = false ->
  filter (by_username (prop body "username")) t = [] ->
  handle f (login pbkdf2 body) t e
  = mkOutcome t [(401, invalid_credentials (prop body "username"))] None 0.
Proof.
  intros Hf Hrows. unfold handle, login. cbn [run exec select].
  rewrite Hf. cbn [apply_writes pending fold_right]. now rewrite Hrows.
Qed.

Lemma strict_eq_strings (a b : string) :
  strict_eq (JString a) (JString b) = true <-> a = b.
Proof. apply String.eqb_eq. Qed.

(** C2. When the lookup answers and the username matches a registered row,
    login sends 200 with exactly the stored token if the derivation of the
    password with the stored salt equals the stored hash, and otherwise
    sends the 401 payload, which has no token; the table is not touched. *)
Theorem login_registered_row :
  forall (f : faults) (t : table) (e : list (list byte)) (body : json)
         (r : row) (password stored_salt stored_hash : string),
    NoDup (map username t) ->
    f_select f = false ->
    In r t ->
    prepareValue (prop body "username") = Some (username r) ->
    prop body "password" = JString password ->
    salt r = Some stored_salt ->
    pass_hash r = Some stored_hash ->
    let o := handle f (login pbkdf2 body) t e in
    (generatePasswordHash pbkdf2 (JString password) (JString stored_salt)
     = inr stored_hash ->
     sent o = [(200, [("user", prop body "username"); ("status", JNum 200);
                      ("token", col (token r))])])
    /\ (generatePasswordHash pbkdf2 (JString password) (JString stored_salt)
        <> inr stored_hash ->
        sent o = [(401, invalid_credentials (prop body "username"))]
        /\ prop (invalid_credentials (prop body "username")) "token"
           = JUndefined)
    /\ thrown o = None
    /\ table_after o = t.
Proof.
  intros f t e body r password stored_salt stored_hash
         Hnd Hf Hin Hname Hpass Hsalt Hhash o.
  subst o. rewrite (login_on_row f t e body r Hf (lookup_unique _ _ _ Hnd Hin Hname)).
  rewrite Hpass, Hsalt, Hhash. cbn [col].
  rewrite generatePasswordHash_strings.
  destruct (strict_eq _ _) eqn:E; cbn [sent thrown table_after].
  - apply strict_eq_strings in E. subst stored_hash.
    split; [reflexivity|]. split; [|split; reflexivity].
    intros Hne. now destruct Hne.
  - split; [|split; [|split; reflexivity]].
    + intros Heq. inversion Heq as [Heq']. apply strict_eq_strings in Heq'.
      congruence.
    + intros _. split; reflexivity.
Qed.

(** C10. When the lookup answers and the username matches a registered
    row, a request whose password is not a string (absent, null, a number,
    a boolean, an object) makes the handler throw the TypeError of the
    key derivation: nothing is sent to the caller. *)
Theorem login_non_string_password_throws :
  forall (f : faults) (t : table) (e : list (list byte)) (body : json)
         (r : row) (stored_salt stored_hash : string),
    NoDup (map username t) ->
    f_select f = false ->
    In r t ->
    prepareValue (prop body "username") = Some (username r) ->
    salt r = Some stored_salt ->
    pass_hash r = Some stored_hash ->
    (forall p : string, prop body "password" <> JString p) ->
    let o := handle f (login pbkdf2 body) t e in
    thrown o = Some (TypeError "password")
    /\ sent o = []
    /\ table_after o = t.
Proof.
  intros f t e body r stored_salt stored_hash Hnd Hf Hin Hname Hsalt Hhash Hpass o.
  subst o.
  rewrite (login_on_row f t e body r Hf (lookup_unique _ _ _ Hnd Hin Hname)).
  rewrite (generatePasswordHash_not_string _ _ Hpass).
  repeat split; reflexivity.
Qed.

(** C6, as the code behaves. When the lookup answers and the username
    matches a row that is provisioned but not registered (its salt is
    NULL), a login with a string password throws the TypeError of the key
    derivation and sends nothing, whereas the same request for a username
    that is not in the table is answered 401. *)
Theorem login_unregistered_row_throws :
  forall (f : faults) (t : table) (e : list (list byte)) (body : json)
         (r : row) (password : string),
    NoDup (map username t) ->
    f_select f = false ->
    In r t ->
    prepareValue (prop body "username") = Some (username r) ->
    salt r = None ->
    prop body "password" = JString password ->
    let o := handle f (login pbkdf2 body) t e in
    thrown o = Some (TypeError "salt")
    /\ sent o = []
    /\ (forall t0 : table,
           (forall x, In x t0 -> by_username (prop body "username") x = false) ->
           sent (handle f (login pbkdf2 body) t0 e)
           = [(401, invalid_credentials (prop body "username"))]).
Proof.
  intros f t e body r password Hnd Hf Hin Hname Hsalt Hpass o. subst o.
  rewrite (login_on_row f t e body r Hf (lookup_unique _ _ _ Hnd Hin Hname)).
  rewrite Hpass, Hsalt. cbn [col generatePasswordHash pbkdf2Sync thrown sent].
  split; [reflexivity|]. split; [reflexivity|].
  intros t0 Hnone. rewrite login_no_row; [reflexivity | exact Hf|].
  now apply filter_none.
Qed.

(** C7. A login that fails because the username is not in the table and a
    login that fails because the password is wrong for a registered
    username are answered alike: status 401 and the same payload, whose
    only variable part is the username the request itself carried. For one
    and the same request the two answers are equal, whichever table it met. *)
Theorem login_failures_indistinguishable :
  forall (f : faults) (t1 t2 : table) (e1 e2 : list (list byte))
         (body1 body2 : json) (r : row)
         (password stored_salt stored_hash : string),
    f_select f = false ->
    (forall x, In x t1 -> by_username (prop body1 "username") x = false) ->
    NoDup (map username t2) ->
    In r t2 ->
    prepareValue (prop body2 "username") = Some (username r) ->
    salt r = Some stored_salt ->
    pass_hash r = Some stored_hash ->
    prop body2 "password" = JString password ->
    generatePasswordHash pbkdf2 (JString password) (JString stored_salt)
    <> inr stored_hash ->
    let unknown := handle f (login pbkdf2 body1) t1 e1 in
    let wrong := handle f (login pbkdf2 body2) t2 e2 in
    sent unknown = [(401, invalid_credentials (prop body1 "username"))]
    /\ sent wrong = [(401, invalid_credentials (prop body2 "username"))]
    /\ thrown unknown = None
    /\ thrown wrong = None
    /\ map fst (sent unknown) = map fst (sent wrong)
    /\ (prop body1 "username" = prop body2 "username" ->
        sent unknown = sent wrong).
Proof.
  intros f t1 t2 e1 e2 body1 body2 r password stored_salt stored_hash
         Hf Hnone Hnd Hin Hname Hsalt Hhash Hpass Hne unknown wrong.
  assert (Hu : unknown
               = mkOutcome t1 [(401, invalid_credentials (prop body1 "username"))]
                   None 0).
  { apply login_no_row; [exact Hf | now apply filter_none]. }
  assert (Hw : wrong
               = mkOutcome t2 [(401, invalid_credentials (prop body2 "username"))]
                   None 0).
  { subst wrong.
    rewrite (login_on_row f t2 e2 body2 r Hf (lookup_unique _ _ _ Hnd Hin Hname)).
    rewrite Hpass, Hsalt, Hhash. cbn [col].
    rewrite generatePasswordHash_strings in *.
    destruct (strict_eq _ _) eqn:E; [|reflexivity].
    apply strict_eq_strings in E. congruence. }
  rewrite Hu, Hw. cbn [sent thrown].
  repeat split; try reflexivity. intros ->. reflexivity.
Qed.

(* =============================================================== *)
(** ** Registration *)

(** The register handler, path by path. *)
Lemma register_outcome (f : faults) (t : table) (e : list (list byte))
    (body : json) :
  handle f (register pbkdf2 body) t e
  = if f_connect f then mkOutcome t [] (Some (TypeError "client")) 0
    else if f_begin f then mkOutcome t [] None 1
    else if f_select f then mkOutcome t [] None 1
    else match filter (by_username (prop body "username")) t with
         | [] => mkOutcome t [forbidden] None 1
         | row0 :: _ =>
             if truthy (col (token row0)) then mkOutcome t [conflict] None 1
             else
               let newToken := toString_hex (fst (draw 32 e)) in
               let newSalt := toString_hex (fst (draw 32 (snd (draw 32 e)))) in
               match generatePasswordHash pbkdf2 (prop body "password")
                       (JString newSalt) with
               | inl x => mkOutcome t [] (Some x) 0
               | inr newHash =>
                   if f_update f then mkOutcome t [] None 1
                   else if f_commit f
                   then mkOutcome t [created (prop body "username")] None 1
                   else mkOutcome
                          (apply_write (newSalt, newToken, newHash, id row0) t)
                          [created (prop body "username")] None 1
               end
         end.
Proof.
  unfold handle, register, fresh.
  cbn [run]. destruct (f_connect f); [reflexivity|].
  cbn [run exec txn]. destruct (f_begin f) eqn:Hb; [reflexivity|].
  cbn [shouldAbort is_err bind run exec pending txn entropy released responses].
  destruct (f_select f) eqn:Hs; [reflexivity|].
  cbn [shouldAbort is_err bind run rows_of select apply_writes fold_right].
  destruct (filter _ t) as [|row0 rest]; [reflexivity|].
  destruct (truthy (col (token row0))); [reflexivity|].
  cbn [negb bind run txn entropy released responses].
  destruct (draw 32 e) as [tb e1].
  cbn [fst snd run txn entropy released responses bind].
  destruct (draw 32 e1) as [sb e2]. cbn [fst snd].
  destruct (generatePasswordHash pbkdf2 _ _) as [x|newHash]; [reflexivity|].
  cbn [bind run exec txn entropy released responses].
  destruct (f_update f) eqn:Hu; [reflexivity|].
  cbn [shouldAbort is_err bind run exec txn pending entropy released responses].
  destruct (f_commit f); reflexivity.
Qed.

(** C4. A registration whose username matches no row never changes the
    table, whatever the store does; when the connection, BEGIN and the
    lookup succeed it is answered 403 "not allowed to register". *)
Theorem register_not_whitelisted :
  forall (f : faults) (t : table) (e : list (list byte)) (body : json),
    (forall x, In x t -> by_username (prop body "username") x = false) ->
    let o := handle f (register pbkdf2 body) t e in
    table_after o = t
    /\ (f_connect f = false -> f_begin f = false -> f_select f = false ->
        sent o = [forbidden] /\ thrown o = None).
Proof.
  intros f t e body Hnone o. subst o. rewrite register_outcome.
  rewrite (filter_none _ _ Hnone).
  destruct (f_connect f), (f_begin f), (f_select f); cbn;
    (split; [reflexivity | intros; try discriminate; split; reflexivity]).
Qed.

(* --------------------------------------------------------------- *)
(** *** Rows that carry a token are never rewritten *)


Lemma apply_write_columns (w : write) (t : table) :
  map username (apply_write w t) = map username t
  /\ map id (apply_write w t) = map id t.
Proof.
  destruct w as [[[s k] h] i]. unfold apply_write.
  rewrite !map_map. split; apply map_ext; intros r;
    unfold set_credentials; now destruct (id r =? i).
Qed.

Lemma apply_write_wf (w : write) (t : table) :
  store_wf t -> store_wf (apply_write w t).
Proof.
  unfold store_wf. destruct (apply_write_columns w t) as [-> ->]. auto.
Qed.


(** The row a registration rewrites, if it rewrites one, is the first row
    its lookup returned, and that row's token was empty. *)
Lemma register_table_after (f : faults) (t : table) (e : list (list byte))
    (body : json) :
  table_after (handle f (register pbkdf2 body) t e) = t
  \/ exists target rest s k h,
       filter (by_username (prop body "username")) t = target :: rest
       /\ truthy (col (token target)) = false
       /\ String.length k = 64%nat
       /\ table_after (handle f (register pbkdf2 body) t e)
          = apply_write (s, k, h, id target) t.
Proof.
  rewrite register_outcome.
  destruct (f_connect f); [now left|].
  destruct (f_begin f); [now left|].
  destruct (f_select f); [now left|].
  destruct (filter _ t) as [|target rest] eqn:Hrows; [now left|].
  destruct (truthy (col (token target))) eqn:Htok; [now left|].
  cbv zeta.
  destruct (generatePasswordHash pbkdf2 _ _) as [x|newHash]; [now left|].
  destruct (f_update f); [now left|].
  destruct (f_commit f); [now left|].
  right. exists target, rest. do 3 eexists.
  split; [reflexivity|]. split; [exact Htok|]. split; [|reflexivity].
  now rewrite toString_hex_length, draw_length.
Qed.

Lemma login_table_after (f : faults) (t : table) (e : list (list byte))
    (body : json) :
  table_after (handle f (login pbkdf2 body) t e) = t.
Proof.
  unfold handle, login, fresh. cbn [run exec].
  destruct (f_select f); [reflexivity|].
  cbn [select apply_writes pending fold_right].
  destruct (filter _ t) as [|row0 [|row1 rest]]; try reflexivity.
  destruct (generatePasswordHash pbkdf2 _ _) as [x|candidate]; [reflexivity|].
  destruct (strict_eq _ _); reflexivity.
Qed.

Lemma authorize_table_after (f : faults) (t : table) (auth : string) :
  fst (fst (run f (userIsAuthorized auth) t (fresh []))) = t.
Proof.
  unfold userIsAuthorized. cbn [run exec].
  destruct (f_select f); reflexivity.
Qed.

Lemma present_token_truthy (t : table) (r : row) (k : string) :
  no_empty_token t -> In r t -> token r = Some k ->
  truthy (col (token r)) = true.
Proof.
  intros Hne Hin Hk. rewrite Hk. cbn.
  apply negb_true_iff, String.eqb_neq. intros ->. now apply (Hne r Hin).
Qed.

Lemma apply_write_no_empty_token (s k h : string) (i : Z) (t : table) :
  String.length k = 64%nat ->
  no_empty_token t -> no_empty_token (apply_write (s, k, h, i) t).
Proof.
  intros Hlen Hne r Hin. unfold apply_write in Hin.
  apply in_map_iff in Hin as (r0 & <- & Hin0).
  unfold set_credentials. destruct (id r0 =? i); [|now apply Hne].
  cbn. intros E. inversion E; subst k. discriminate.
Qed.





(** C5, as the code behaves. When the row is eligible and the connection,
    BEGIN and the lookup succeed, a failing UPDATE or COMMIT leaves the
    table as it was, but no error reaches the caller: after a failed
    UPDATE nothing at all is sent, and after a failed COMMIT the caller is
    told 201 Created. *)
Theorem register_activation_failure_not_surfaced :
  forall (f : faults) (t : table) (e : list (list byte)) (body : json)
         (r : row) (password : string),
    store_wf t ->
    In r t ->
    prepareValue (prop body "username") = Some (username r) ->
    truthy (col (token r)) = false ->
    prop body "password" = JString password ->
    f_connect f = false -> f_begin f = false -> f_select f = false ->
    let o := handle f (register pbkdf2 body) t e in
    (f_update f = true ->
     sent o = [] /\ thrown o = None /\ table_after o = t)
    /\ (f_update f = false -> f_commit f = true ->
        sent o = [created (prop body "username")] /\ thrown o = None
        /\ table_after o = t).
Proof.
  intros f t e body r password Hwf Hin Hname Hempty Hpass Hc Hb Hs o.
  subst o. rewrite register_outcome, Hc, Hb, Hs.
  rewrite (lookup_unique _ _ _ (proj1 Hwf) Hin Hname), Hempty, Hpass.
  cbv zeta. rewrite generatePasswordHash_strings.
  split.
  - intros ->. repeat split; reflexivity.
  - intros -> ->. repeat split; reflexivity.
Qed.

(** One registration after another for the same provisioned username, the
    store answering throughout: the first is answered 201 and stores its
    credentials, the second is answered 409 and changes nothing. *)
Lemma register_then_register_conflict :
  forall (t : table) (e e' : list (list byte)) (body body' : json)
         (r : row) (password : string),
    store_wf t ->
    no_empty_token t ->
    In r t ->
    token r = None ->
    prepareValue (prop body "username") = Some (username r) ->
    prop body "password" = JString password ->
    prepareValue (prop body' "username") = Some (username r) ->
    let first := handle no_faults (register pbkdf2 body) t e in
    let second := handle no_faults (register pbkdf2 body') (table_after first) e' in
    sent first = [created (prop body "username")]
    /\ sent second = [conflict]
    /\ table_after second = table_after first.
Proof.
  intros t e e' body body' r password Hwf Hne Hin Hnull Hname Hpass Hname' first second.
  set (newToken := toString_hex (fst (draw 32 e))).
  set (newSalt := toString_hex (fst (draw 32 (snd (draw 32 e))))).
  set (newHash := toString_hex (pbkdf2 password newSalt 100000 64 "sha256")).
  assert (Hfirst : first = mkOutcome (apply_write (newSalt, newToken, newHash, id r) t)
                             [created (prop body "username")] None 1).
  { subst first. rewrite register_outcome. cbn [no_faults f_connect f_begin f_select
                                                 f_update f_commit].
    rewrite (lookup_unique _ _ _ (proj1 Hwf) Hin Hname), Hnull, Hpass.
    reflexivity. }
  assert (Hlen : String.length newToken = 64%nat).
  { subst newToken. now rewrite toString_hex_length, draw_length. }
  set (t' := apply_write (newSalt, newToken, newHash, id r) t) in *.
  set (r' := mkRow (id r) (username r) (Some newSalt) (Some newToken) (Some newHash)).
  assert (Hin' : In r' t').
  { subst t'. unfold apply_write. apply in_map_iff. exists r. split; [|exact Hin].
    unfold set_credentials. now rewrite Z.eqb_refl. }
  assert (Hwf' : store_wf t') by now apply apply_write_wf.
  assert (Hne' : no_empty_token t') by now apply apply_write_no_empty_token.
  subst second. rewrite Hfirst. cbn [table_after sent].
  rewrite register_outcome. cbn [no_faults f_connect f_begin f_select].
  rewrite (lookup_unique _ t' r' (proj1 Hwf') Hin' Hname').
  rewrite (present_token_truthy t' r' newToken Hne' Hin' eq_refl).
  repeat split; reflexivity.
Qed.
End DerivationFacts.

(* ================================================================= *)
(** ** Authorization *)

Lemma split_without_separator (c : ascii) (s : string) :
  contains c s = false -> split c s = [s].
Proof.
  induction s as [|a s IH]; cbn [contains split]; [reflexivity|].
  intros H. apply orb_false_iff in H as [Ha Hs].
  now rewrite Ha, (IH Hs).
Qed.

Lemma by_username_token_true (user tok : jsval) (r : row) :
  by_username_token user tok r = true
  <-> prepareValue user = Some (username r)
      /\ exists k, token r = Some k /\ prepareValue tok = Some k.
Proof.
  unfold by_username_token. rewrite andb_true_iff.
  change (sql_eq (Some (username r)) (prepareValue user))
    with (by_username user r).
  rewrite by_username_true. unfold sql_eq.
  destruct (token r) as [k|], (prepareValue tok) as [k'|].
  - rewrite String.eqb_eq. split.
    + intros [H ->]. eauto.
    + intros [H (x & Hx & Hx')]. split; congruence.
  - split; [intros [_ H]; discriminate | intros [_ (x & _ & H)]; discriminate].
  - split; [intros [_ H]; discriminate | intros [_ (x & H & _)]; discriminate].
  - split; [intros [_ H]; discriminate | intros [_ (x & H & _)]; discriminate].
Qed.

Lemma matches_at_most_one (user tok : jsval) (t : table) :
  NoDup (map username t) ->
  (List.length (filter (by_username_token user tok) t) <= 1)%nat.
Proof.
  induction t as [|a t IH]; intros Hnd; [simpl; lia|].
  simpl in Hnd. inversion Hnd as [|u us Hnotin Hnd']; subst.
  simpl. destruct (by_username_token user tok a) eqn:Ea; [|now apply IH].
  rewrite filter_none; [simpl; lia|].
  intros x Hx. destruct (by_username_token user tok x) eqn:Ex; [|reflexivity].
  apply by_username_token_true in Ea as [Ha _].
  apply by_username_token_true in Ex as [Hx' _].
  exfalso. apply Hnotin. replace (username a) with (username x) by congruence.
  now apply in_map.
Qed.

Lemma authorize_eq (f : faults) (t : table) (auth : string) :
  f_select f = false ->
  authorize f t auth
  = inr (List.length
           (filter (by_username_token (index (split ":" auth) 0)
                      (index (split ":" auth) 1)) t) =? 1)%nat.
Proof.
  intros Hf. unfold authorize, userIsAuthorized. cbn [run exec].
  rewrite Hf. reflexivity.
Qed.

Lemma index_string (segs : list string) (i : nat) (k : string) :
  prepareValue (index segs i) = Some k <-> nth_error segs i = Some k.
Proof.
  unfold index. destruct (nth_error segs i); cbn; split; congruence.
Qed.

(** C3, amended. When the store answers and usernames are unique,
    [userIsAuthorized] resolves to a boolean for every credential string:
    true iff a stored row's username and token equal the first and the
    second segment of the string cut at every colon (later segments are
    ignored). It resolves to false for a string without a colon, and for an
    empty first or second segment when no stored username or token is
    empty. *)
Theorem authorize_first_two_segments :
  forall (f : faults) (t : table) (auth : string),
    f_select f = false ->
    NoDup (map username t) ->
    exists b : bool,
      authorize f t auth = inr b
      /\ (b = true <->
          exists r user tok,
            In r t
            /\ nth_error (split ":" auth) 0 = Some user
            /\ nth_error (split ":" auth) 1 = Some tok
            /\ username r = user /\ token r = Some tok)
      /\ (contains ":" auth = false -> b = false)
      /\ ((forall r, In r t -> username r <> "" /\ token r <> Some "") ->
          nth_error (split ":" auth) 0 = Some ""
          \/ nth_error (split ":" auth) 1 = Some "" ->
          b = false).
Proof.
  intros f t auth Hf Hnd.
  set (user := index (split ":" auth) 0).
  set (tok := index (split ":" auth) 1).
  exists (List.length (filter (by_username_token user tok) t) =? 1)%nat.
  split; [now apply authorize_eq|].
  assert (Hiff : (List.length (filter (by_username_token user tok) t) =? 1)%nat = true
                 <-> exists r u k,
                       In r t /\ nth_error (split ":" auth) 0 = Some u
                       /\ nth_error (split ":" auth) 1 = Some k
                       /\ username r = u /\ token r = Some k).
  { pose proof (matches_at_most_one user tok t Hnd) as Hle.
    rewrite Nat.eqb_eq. split.
    - intros Hlen.
      destruct (filter (by_username_token user tok) t) as [|r rest] eqn:Hrows;
        [discriminate|].
      assert (Hr : In r (filter (by_username_token user tok) t))
        by (rewrite Hrows; now left).
      apply filter_In in Hr as [Hin Hm].
      apply by_username_token_true in Hm as [Hu (k & Hk & Hk')].
      apply index_string in Hu, Hk'.
      exists r, (username r), k. auto.
    - intros (r & u & k & Hin & Hu & Hk & Hur & Hkr).
      assert (Hr : In r (filter (by_username_token user tok) t)).
      { apply filter_In. split; [exact Hin|].
        apply by_username_token_true. split.
        - apply index_string. congruence.
        - exists k. split; [exact Hkr|]. now apply index_string. }
      destruct (filter (by_username_token user tok) t) as [|x rest];
        [contradiction|]. simpl in *. lia. }
  split; [exact Hiff|]. split.
  - intros Hno. apply not_true_is_false. intros Hb.
    apply Hiff in Hb as (r & u & k & _ & _ & Hk & _).
    rewrite (split_without_separator _ _ Hno) in Hk. discriminate.
  - intros Hnonempty Hempty. apply not_true_is_false. intros Hb.
    apply Hiff in Hb as (r & u & k & Hin & Hu & Hk & Hur & Hkr).
    destruct (Hnonempty r Hin) as [Hn1 Hn2].
    destruct Hempty as [H0|H1]; congruence.
Qed.

(** C3, as stated, fails: with alice's token stored, the credential made of
    her username, her token and a further colon-separated part is accepted,
    although its part after the first colon is not her token. *)
Lemma authorize_ignores_text_after_second_colon :
  authorize no_faults sample_table ("alice:" ++ sample_token ++ ":x") = inr true
  /\ spec_authorize sample_table ("alice:" ++ sample_token ++ ":x") = false.
Proof. split; vm_compute; reflexivity. Qed.

(* ================================================================= *)
(** ** Two registrations in flight *)

(** C9, as the code behaves. Two registrations for the same provisioned
    username whose SELECTs both run before either UPDATE are both answered
    201 Created, and the second overwrites the token issued to the first:
    the UPDATE is not conditional on the row still having no token. *)
Theorem register_race_both_created :
  forall pbkdf2 : string -> string -> N -> nat -> string -> list byte,
    let w := schedule no_faults race_order (race_world pbkdf2) in
    forallb finished (w_clients w) = true
    /\ statuses w = [[201]; [201]]
    /\ map token (w_table w) = [Some (toString_hex (repeat x03 32))].
Proof. intros pbkdf2. vm_compute. repeat split; reflexivity. Qed.

(** The same two requests, the second starting after the first has
    answered: 201, then 409, and the first token stays. *)
Lemma register_one_after_the_other :
  forall pbkdf2 : string -> string -> N -> nat -> string -> list byte,
    let w := schedule no_faults (repeat 0%nat 9 ++ repeat 1%nat 9)
               (race_world pbkdf2) in
    forallb finished (w_clients w) = true
    /\ statuses w = [[201]; [409]]
    /\ map token (w_table w) = [Some (toString_hex (repeat x01 32))].
Proof. intros pbkdf2. vm_compute. repeat split; reflexivity. Qed.


(* ================================================================= *)
(** ** The theorems at work on the sample table *)

(** The life of bob's row: provisioned, registered, logged in with the
    password, authorized with the token, refused with another, refused a
    second registration. *)
Example bob_end_to_end :
  let e := [repeat x05 32; repeat x06 32] in
  let registered := handle no_faults (register sample_kdf (credentials "bob" "pw1"))
                      sample_table e in
  let t := table_after registered in
  let T := toString_hex (repeat x05 32) in
  map fst (sent registered) = [201]
  /\ sent (handle no_faults (login sample_kdf (credentials "bob" "pw1")) t [])
     = [(200, [("user", JString "bob"); ("status", JNum 200); ("token", JString T)])]
  /\ authorize no_faults t ("bob:" ++ T) = inr true
  /\ authorize no_faults t "bob:wrong" = inr false
  /\ map fst (sent (handle no_faults (register sample_kdf (credentials "bob" "pw2")) t []))
     = [409].
Proof. vm_compute. repeat split; reflexivity. Qed.

Lemma generatePasswordHash_deterministic_hex_witness :
  exists hash : string,
    generatePasswordHash sample_kdf (JString "secret") (JString sample_salt)
    = inr hash
    /\ String.length hash = 128%nat
    /\ all_chars is_lower_hex hash = true.
Proof.
  destruct (generatePasswordHash_deterministic_hex sample_kdf
              (fun p s i k d => repeat_length _ k) "secret" sample_salt)
    as (hash & Heq & _ & Hlen & Hhex & _).
  exists hash. auto.
Defined.

Lemma login_registered_row_witness :
  sent (handle no_faults (login sample_kdf (credentials "alice" "secret"))
          sample_table [])
  = [(200, [("user", JString "alice"); ("status", JNum 200);
            ("token", JString sample_token)])].
Proof.
  apply (login_registered_row sample_kdf no_faults sample_table []
           (credentials "alice" "secret") alice "secret" sample_salt
           (toString_hex (sample_kdf "secret" sample_salt 100000 64 "sha256")));
    try reflexivity; [distinct | now left].
Defined.

Lemma login_non_string_password_throws_witness :
  thrown (handle no_faults (login sample_kdf [("username", JString "alice")])
            sample_table [])
  = Some (TypeError "password").
Proof.
  apply (login_non_string_password_throws sample_kdf no_faults sample_table []
           [("username", JString "alice")] alice sample_salt
           (toString_hex (sample_kdf "secret" sample_salt 100000 64 "sha256")));
    try reflexivity; [distinct | now left | discriminate].
Defined.

Lemma login_unregistered_row_throws_witness :
  thrown (handle no_faults (login sample_kdf (credentials "bob" "pw"))
            sample_table [])
  = Some (TypeError "salt").
Proof.
  apply (login_unregistered_row_throws sample_kdf no_faults sample_table []
           (credentials "bob" "pw") bob "pw");
    try reflexivity; [distinct | right; now left].
Defined.

Lemma login_failures_indistinguishable_witness :
  sent (handle no_faults (login sample_kdf (credentials "carol" "secret"))
          sample_table [])
  = [(401, invalid_credentials (JString "carol"))]
  /\ sent (handle no_faults (login sample_kdf (credentials "alice" "wrong"))
             sample_table [])
     = [(401, invalid_credentials (JString "alice"))].
Proof.
  destruct (login_failures_indistinguishable sample_kdf no_faults
              sample_table sample_table [] []
              (credentials "carol" "secret") (credentials "alice" "wrong")
              alice "wrong" sample_salt
              (toString_hex (sample_kdf "secret" sample_salt 100000 64 "sha256")))
    as (Hu & Hw & _); try reflexivity;
    [each_row | distinct | now left | vm_compute; discriminate | auto].
Defined.

Lemma register_not_whitelisted_witness :
  table_after (handle no_faults (register sample_kdf (credentials "carol" "pw"))
                 sample_table [])
  = sample_table
  /\ sent (handle no_faults (register sample_kdf (credentials "carol" "pw"))
             sample_table [])
     = [forbidden].
Proof.
  destruct (register_not_whitelisted sample_kdf no_faults sample_table []
              (credentials "carol" "pw")) as [Ht Hs]; [each_row|].
  split; [exact Ht | now apply Hs].
Defined.


Lemma register_activation_failure_not_surfaced_witness :
  sent (handle (mkFaults false false false true false false)
          (register sample_kdf (credentials "bob" "pw")) sample_table [])
  = []
  /\ sent (handle (mkFaults false false false false true false)
             (register sample_kdf (credentials "bob" "pw")) sample_table [])
     = [created (JString "bob")].
Proof.
  split.
  - apply (register_activation_failure_not_surfaced sample_kdf
             (mkFaults false false false true false false) sample_table []
             (credentials "bob" "pw") bob "pw");
      try reflexivity; [split; distinct | right; now left].
  - apply (register_activation_failure_not_surfaced sample_kdf
             (mkFaults false false false false true false) sample_table []
             (credentials "bob" "pw") bob "pw");
      try reflexivity; [split; distinct | right; now left].
Defined.

Lemma authorize_first_two_segments_witness :
  exists b : bool,
    authorize no_faults sample_table ("alice:" ++ sample_token ++ ":x") = inr b.
Proof.
  destruct (authorize_first_two_segments no_faults sample_table
              ("alice:" ++ sample_token ++ ":x") eq_refl) as (b & Hb & _);
    [distinct|].
  exists b. exact Hb.
Defined.

(* ================================================================= *)
(** ** More on authorization *)

Lemma split_segments_free (c : ascii) (s : string) :
  Forall (fun seg => contains c seg = false) (split c s).
Proof.
  induction s as [|a s IH]; cbn [split].
  - constructor; [reflexivity | constructor].
  - destruct (Ascii.eqb a c) eqn:E.
    + constructor; [reflexivity | exact IH].
    + destruct (split c s) as [|seg segs].
      * constructor; [cbn; now rewrite E | constructor].
      * inversion IH as [|x l Hseg Hsegs]; subst.
        constructor; [cbn; now rewrite E | exact Hsegs].
Qed.

Lemma split_app (c : ascii) (u k : string) :
  contains c u = false ->
  split c (u ++ String c k) = u :: split c k.
Proof.
  induction u as [|a u IH]; cbn [contains append split]; intros H.
  - now rewrite Ascii.eqb_refl.
  - apply orb_false_iff in H as [Ha Hu]. now rewrite Ha, (IH Hu).
Qed.

Lemma all_chars_contains (p : ascii -> bool) (c : ascii) (s : string) :
  p c = false -> all_chars p s = true -> contains c s = false.
Proof.
  intros Hc. induction s as [|a s IH]; cbn [all_chars contains]; [reflexivity|].
  intros H. apply andb_true_iff in H as [Ha Hs]. rewrite (IH Hs), orb_false_r.
  destruct (Ascii.eqb a c) eqn:E; [|reflexivity].
  apply Ascii.eqb_eq in E. congruence.
Qed.

Lemma toString_hex_no_colon (buf : list byte) :
  contains ":" (toString_hex buf) = false.
Proof.
  apply (all_chars_contains is_lower_hex); [reflexivity|].
  apply toString_hex_lower.
Qed.

(** The row whose username and token are the first two segments is
    accepted. *)
Lemma authorize_accepts (f : faults) (t : table) (r : row) (k auth : string) :
  f_select f = false ->
  NoDup (map username t) ->
  In r t -> token r = Some k ->
  nth_error (split ":" auth) 0 = Some (username r) ->
  nth_error (split ":" auth) 1 = Some k ->
  authorize f t auth = inr true.
Proof.
  intros Hf Hnd Hin Hk H0 H1. rewrite (authorize_eq f t auth Hf). f_equal.
  set (user := index (split ":" auth) 0).
  set (tok := index (split ":" auth) 1).
  pose proof (matches_at_most_one user tok t Hnd) as Hle.
  assert (Hr : In r (filter (by_username_token user tok) t)).
  { apply filter_In. split; [exact Hin|]. apply by_username_token_true. split.
    - now apply index_string.
    - exists k. split; [exact Hk | now apply index_string]. }
  apply Nat.eqb_eq.
  destruct (filter (by_username_token user tok) t); [contradiction|].
  simpl in *. lia.
Qed.

(** X1. With unique usernames, a user whose username and token hold no colon is
    authorized by "username:token" and refused with any other colon-free
    token. *)
Theorem authorize_own_credentials :
  forall (f : faults) (t : table) (r : row) (k : string),
    f_select f = false ->
    NoDup (map username t) ->
    In r t ->
    token r = Some k ->
    contains ":" (username r) = false ->
    contains ":" k = false ->
    authorize f t (username r ++ ":" ++ k) = inr true
    /\ (forall k' : string,
           contains ":" k' = false -> k' <> k ->
           authorize f t (username r ++ ":" ++ k') = inr false).
Proof.
  intros f t r k Hf Hnd Hin Hk Hu Hkc. split.
  - change (username r ++ ":" ++ k) with (username r ++ String ":" k).
    apply (authorize_accepts f t r k); try assumption.
    + now rewrite (split_app ":" _ _ Hu).
    + rewrite (split_app ":" _ _ Hu). cbn [nth_error].
      now rewrite (split_without_separator _ _ Hkc).
  - intros k' Hk'c Hne. rewrite (authorize_eq f t _ Hf). f_equal.
    change (username r ++ ":" ++ k') with (username r ++ String ":" k').
    rewrite (split_app ":" _ _ Hu), (split_without_separator _ _ Hk'c).
    cbn [index nth_error]. rewrite filter_none; [reflexivity|].
    intros x Hx. destruct (by_username_token _ _ x) eqn:E; [|reflexivity].
    apply by_username_token_true in E as [Hux (kx & Hkx & Hkx')].
    cbn in Hux, Hkx'. inversion Hux as [Hux']. inversion Hkx'; subst kx.
    assert (x = r).
    { clear - Hnd Hin Hx Hux'. induction t as [|a t IH]; [contradiction|].
      simpl in Hnd. inversion Hnd as [|u us Hnotin Hnd']; subst.
      destruct Hin as [->|Hin], Hx as [->|Hx]; auto.
      - exfalso. apply Hnotin. rewrite Hux'. now apply in_map.
      - exfalso. apply Hnotin. rewrite <- Hux'. now apply in_map. }
    subst x. congruence.
Qed.

(** X2. A credential is accepted only for a row whose username and token
    hold no colon: a user provisioned with a colon in the username can
    never be the one who is authorized. *)
Theorem authorize_only_colon_free_rows :
  forall (f : faults) (t : table) (auth : string),
    authorize f t auth = inr true ->
    exists (r : row) (k : string),
      In r t /\ token r = Some k
      /\ nth_error (split ":" auth) 0 = Some (username r)
      /\ nth_error (split ":" auth) 1 = Some k
      /\ contains ":" (username r) = false
      /\ contains ":" k = false.
Proof.
  intros f t auth H.
  assert (Hf : f_select f = false).
  { destruct (f_select f) eqn:E; [|reflexivity].
    unfold authorize, userIsAuthorized in H. cbn [run exec] in H.
    rewrite E in H. discriminate. }
  rewrite (authorize_eq f t auth Hf) in H. injection H as Hlen.
  apply Nat.eqb_eq in Hlen.
  destruct (filter _ t) as [|r rest] eqn:Hrows; [discriminate|].
  assert (Hr : In r (filter (by_username_token (index (split ":" auth) 0)
                               (index (split ":" auth) 1)) t))
    by (rewrite Hrows; now left).
  apply filter_In in Hr as [Hin Hm].
  apply by_username_token_true in Hm as [Hu (k & Hk & Hk')].
  apply index_string in Hu, Hk'.
  pose proof (split_segments_free ":" auth) as Hfree.
  rewrite Forall_forall in Hfree.
  exists r, k. repeat split; try assumption.
  - apply Hfree. eapply nth_error_In; eauto.
  - apply Hfree. eapply nth_error_In; eauto.
Qed.

(* ================================================================= *)
(** ** More on login and registration *)

Section MoreDerivationFacts.

Variable pbkdf2 : string -> string -> N -> nat -> string -> list byte.

Lemma generatePasswordHash_inr (secret salt : jsval) (h : string) :
  generatePasswordHash pbkdf2 secret salt = inr h ->
  exists p s, secret = JString p /\ salt = JString s
              /\ h = toString_hex (pbkdf2 p s 100000 64 "sha256").
Proof.
  unfold generatePasswordHash, pbkdf2Sync.
  destruct secret; try discriminate. destruct salt; try discriminate.
  intros H. injection H as <-. eauto.
Qed.

(** X3. Login answers 200 only when exactly one row has the request's
    username, the password is a string, and its derivation with that row's
    salt is that row's stored hash; the token sent is that row's. This holds
    on any table and whatever the store does. *)
Theorem login_ok_is_sound :
  forall (f : faults) (t : table) (e : list (list byte)) (body payload : json),
    In (200, payload) (sent (handle f (login pbkdf2 body) t e)) ->
    exists (r : row) (password stored_salt stored_hash : string),
      filter (by_username (prop body "username")) t = [r]
      /\ prop body "password" = JString password
      /\ salt r = Some stored_salt
      /\ pass_hash r = Some stored_hash
      /\ generatePasswordHash pbkdf2 (JString password) (JString stored_salt)
         = inr stored_hash
      /\ payload = [("user", prop body "username"); ("status", JNum 200);
                    ("token", col (token r))].
Proof.
  intros f t e body payload. unfold handle, login, fresh. cbn [run exec].
  destruct (f_select f); [intros []|].
  cbn [select apply_writes pending fold_right].
  destruct (filter _ t) as [|r [|r1 rest]] eqn:Hrows; cbn [run sent responses].
  - intros [H|[]]. discriminate.
  - destruct (generatePasswordHash pbkdf2 _ _) as [x|candidate] eqn:Hgen;
      [intros []|].
    destruct (strict_eq _ _) eqn:Heq; cbn [run sent responses app].
    + intros [H|[]]. injection H as <-.
      apply generatePasswordHash_inr in Hgen as (p & s & Hp & Hs & Hc).
      destruct (salt r) as [s'|] eqn:Hsalt; [|discriminate].
      injection Hs as ->.
      destruct (pass_hash r) as [h|] eqn:Hhash; [|discriminate].
      apply strict_eq_strings in Heq. subst h.
      exists r, p, s, candidate. rewrite Hp.
      repeat split; try reflexivity; try assumption. now rewrite Hc.
    + intros [H|[]]. discriminate.
  - intros [H|[]]. discriminate.
Qed.

(** X4. Login only reads: the table is the same afterwards, [done] is never
    called, and the request ends in exactly one of three ways: one 401
    answer, one 200 answer, or an exception with nothing sent. A failing
    lookup always ends the third way: its error is rethrown, not
    answered. *)
Theorem login_answers_or_throws :
  forall (f : faults) (t : table) (e : list (list byte)) (body : json),
    let o := handle f (login pbkdf2 body) t e in
    table_after o = t
    /\ done_calls o = 0%nat
    /\ ((thrown o = None
         /\ (sent o = [(401, invalid_credentials (prop body "username"))]
             \/ exists k, sent o = [(200, [("user", prop body "username");
                                           ("status", JNum 200); ("token", k)])]))
        \/ (sent o = [] /\ exists x, thrown o = Some x))
    /\ (f_select f = true -> sent o = [] /\ thrown o = Some StoreError).
Proof.
  intros f t e body o. subst o. unfold handle, login, fresh. cbn [run exec].
  destruct (f_select f);
    [| cbn [select apply_writes pending fold_right];
       destruct (filter _ t) as [|r [|r1 rest]]; cbn [run];
       [| destruct (generatePasswordHash pbkdf2 _ _) as [x|candidate];
          [| destruct (strict_eq _ _)] |]];
    cbn; repeat split; try reflexivity; try congruence;
    first [ left; split; [reflexivity|];
            first [left; reflexivity | right; eexists; reflexivity]
          | right; split; [reflexivity | eexists; reflexivity] ].
Qed.

(** X5. Whatever the table, the store and the request, the register handler
    sends nothing or exactly one of its three answers, none of which holds
    the token, the salt or the hash; it calls [done] exactly once unless an
    exception escapes, and then not at all; and it changes the table only
    when it answers 201. *)
Theorem register_answers :
  forall (f : faults) (t : table) (e : list (list byte)) (body : json),
    let o := handle f (register pbkdf2 body) t e in
    (sent o = [] \/ sent o = [forbidden] \/ sent o = [conflict]
     \/ sent o = [created (prop body "username")])
    /\ done_calls o = match thrown o with None => 1%nat | Some _ => 0%nat end
    /\ (thrown o <> None -> sent o = [])
    /\ (table_after o <> t -> sent o = [created (prop body "username")]).
Proof.
  intros f t e body o. subst o. rewrite register_outcome.
  destruct (f_connect f); [cbn; intuition congruence|].
  destruct (f_begin f); [cbn; intuition congruence|].
  destruct (f_select f); [cbn; intuition congruence|].
  destruct (filter _ t) as [|row0 rest]; [cbn; intuition congruence|].
  destruct (truthy (col (token row0))); [cbn; intuition congruence|].
  cbv zeta.
  destruct (generatePasswordHash pbkdf2 _ _) as [x|newHash];
    [cbn; intuition congruence|].
  destruct (f_update f); [cbn; intuition congruence|].
  destruct (f_commit f); cbn; intuition congruence.
Qed.

(** X6. What becomes of the client's transaction. After a 403 or a 409 the
    client has gone back to the pool with the transaction that BEGIN opened
    still open: neither COMMIT nor ROLLBACK was sent. When the key
    derivation throws, the transaction stays open and the client is never
    released. After a 201, and after an abort on a store error, the
    transaction is closed. *)
Theorem register_transaction_left_open :
  forall (f : faults) (t : table) (e : list (list byte)) (body : json),
    let o := handle f (register pbkdf2 body) t e in
    let open := txn (snd (fst (run f (register pbkdf2 body) t (fresh e)))) in
    (sent o = [forbidden] \/ sent o = [conflict] ->
     open = Some [] /\ done_calls o = 1%nat)
    /\ (thrown o = Some (TypeError "password") ->
        open = Some [] /\ done_calls o = 0%nat)
    /\ (sent o = [created (prop body "username")]
        \/ (sent o = [] /\ thrown o = None) ->
        open = None /\ done_calls o = 1%nat).
Proof.
  intros f t e body o open. subst o open.
  unfold handle, register, fresh.
  cbn [run]. destruct (f_connect f);
    [| cbn [run exec txn]; destruct (f_begin f) eqn:Hb;
       [| cbn [shouldAbort is_err bind run exec pending txn entropy released
                 responses];
          destruct (f_select f) eqn:Hs;
          [| cbn [shouldAbort is_err bind run rows_of select apply_writes
                    fold_right];
             destruct (filter _ t) as [|row0 rest];
             [| destruct (truthy (col (token row0)));
                [| cbn [negb bind run txn entropy released responses];
                   destruct (draw 32 e) as [tb e1];
                   cbn [fst snd run txn entropy released responses bind];
                   destruct (draw 32 e1) as [sb e2]; cbn [fst snd];
                   destruct (generatePasswordHash pbkdf2 _ _) as [x|newHash];
                   [| cbn [bind run exec txn entropy released responses];
                      destruct (f_update f) eqn:Hu;
                      [| cbn [shouldAbort is_err bind run exec txn pending
                                entropy released responses];
                         destruct (f_commit f)]]]]]]];
    cbn; unfold forbidden, conflict, created;
    repeat split; intros;
    repeat match goal with
           | H : _ \/ _ |- _ => destruct H
           | H : _ /\ _ |- _ => destruct H
           end;
    first [reflexivity | congruence].
Qed.

(** X7. The register handler with a password that is not a string: when the
    connection, BEGIN and the lookup succeed and the row found has no token
    yet, the key derivation throws inside the SELECT callback. Nothing is
    sent, the table is unchanged, and [done] is never called. *)
Theorem register_non_string_password_throws :
  forall (f : faults) (t : table) (e : list (list byte)) (body : json)
         (r : row),
    NoDup (map username t) ->
    In r t ->
    prepareValue (prop body "username") = Some (username r) ->
    truthy (col (token r)) = false ->
    (forall p : string, prop body "password" <> JString p) ->
    f_connect f = false -> f_begin f = false -> f_select f = false ->
    let o := handle f (register pbkdf2 body) t e in
    thrown o = Some (TypeError "password")
    /\ sent o = []
    /\ done_calls o = 0%nat
    /\ table_after o = t.
Proof.
  intros f t e body r Hnd Hin Hname Hempty Hpass Hc Hb Hs o. subst o.
  rewrite register_outcome, Hc, Hb, Hs.
  rewrite (lookup_unique _ _ _ Hnd Hin Hname), Hempty. cbv zeta.
  rewrite (generatePasswordHash_not_string pbkdf2 _ _ Hpass).
  repeat split; reflexivity.
Qed.

(** X8. A request without a username. When the body has no username, or a null
    one, and the store answers, the register handler answers 403 and the
    login handler 401, as for a username that is not in the table: the
    parameter is bound as NULL and matches no row. Neither handler answers
    400, and the table is unchanged. *)
Theorem missing_username_matches_no_row :
  forall (f : faults) (t : table) (e : list (list byte)) (body : json),
    prepareValue (prop body "username") = None ->
    f_connect f = false -> f_begin f = false -> f_select f = false ->
    let r := handle f (register pbkdf2 body) t e in
    let l := handle f (login pbkdf2 body) t e in
    sent r = [forbidden] /\ table_after r = t
    /\ sent l = [(401, invalid_credentials (prop body "username"))]
    /\ table_after l = t /\ thrown l = None.
Proof.
  intros f t e body Hnull Hc Hb Hs r l.
  assert (Hnone : filter (by_username (prop body "username")) t = []).
  { apply filter_none. intros x _. unfold by_username. now rewrite Hnull. }
  subst r l. rewrite register_outcome, Hc, Hb, Hs, Hnone.
  rewrite (login_no_row pbkdf2 f t e body Hs Hnone).
  repeat split; reflexivity.
Qed.

(* ----------------------------------------------------------------- *)
(** *** What histories keep *)

Lemma perform_shape (f : faults) (e : list (list byte)) (op : operation)
    (t : table) :
  perform pbkdf2 f e op t = t
  \/ exists s k h i, perform pbkdf2 f e op t = apply_write (s, k, h, i) t.
Proof.
  destruct op as [body|body|auth]; cbn [perform].
  - destruct (register_table_after pbkdf2 f t e body)
      as [->|(target & rest & s & k & h & _ & _ & _ & ->)]; [now left|].
    right. eauto.
  - left. apply login_table_after.
  - left. apply authorize_table_after.
Qed.

(** X9. No sequence of registrations, logins and authorization checks,
    whatever the store does meanwhile, creates, deletes, renames or
    renumbers a row: the usernames and the ids of the table stay as they
    were, row by row. *)
Theorem history_keeps_usernames_and_ids :
  forall (history : list (faults * list (list byte) * operation)) (t : table),
    map username (after pbkdf2 history t) = map username t
    /\ map id (after pbkdf2 history t) = map id t.
Proof.
  induction history as [|[[f e] op] history IH]; intros t; [split; reflexivity|].
  cbn [after fold_left].
  destruct (IH (perform pbkdf2 f e op t)) as [Hu Hi].
  unfold after in Hu, Hi. rewrite Hu, Hi.
  destruct (perform_shape f e op t) as [->|(s & k & h & i & ->)];
    [split; reflexivity|].
  apply apply_write_columns.
Qed.

(** X10. Salt, token and hash are written together: if every row has all three
    or none of them, the same is true after any sequence of registrations,
    logins and authorization checks, whatever the store does meanwhile. *)
Theorem history_keeps_credentials_whole :
  forall (history : list (faults * list (list byte) * operation)) (t : table),
    Forall credentials_whole t ->
    Forall credentials_whole (after pbkdf2 history t).
Proof.
  induction history as [|[[f e] op] history IH]; intros t Hall; [exact Hall|].
  cbn [after fold_left]. apply IH.
  destruct (perform_shape f e op t) as [->|(s & k & h & i & ->)]; [exact Hall|].
  unfold apply_write. rewrite Forall_forall in *. intros r Hr.
  apply in_map_iff in Hr as (r0 & <- & Hr0).
  unfold set_credentials. destruct (id r0 =? i); [|now apply Hall].
  right. exists s, k, h. cbn. auto.
Qed.

(* ----------------------------------------------------------------- *)
(** *** From registration to an authorized request *)

(** X11. A provisioned user registers, the store answering throughout. The
    registration is answered 201; a login with the same credentials is then
    answered 200 with the token the registration stored, the hexadecimal
    text of the first 32 random bytes; and, the username holding no colon,
    "username:token" is authorized. *)
Theorem register_login_authorize :
  forall (t : table) (e e' : list (list byte)) (body : json) (r : row)
         (password : string),
    store_wf t ->
    In r t ->
    token r = None ->
    prepareValue (prop body "username") = Some (username r) ->
    prop body "password" = JString password ->
    let registered := handle no_faults (register pbkdf2 body) t e in
    let t' := table_after registered in
    let issued := toString_hex (fst (draw 32 e)) in
    sent registered = [created (prop body "username")]
    /\ sent (handle no_faults (login pbkdf2 body) t' e')
       = [(200, [("user", prop body "username"); ("status", JNum 200);
                 ("token", JString issued)])]
    /\ (contains ":" (username r) = false ->
        authorize no_faults t' (username r ++ ":" ++ issued) = inr true).
Proof.
  intros t e e' body r password Hwf Hin Hnull Hname Hpass
         registered t' issued.
  set (newSalt := toString_hex (fst (draw 32 (snd (draw 32 e))))).
  set (newHash := toString_hex (pbkdf2 password newSalt 100000 64 "sha256")).
  assert (Hreg : registered
                 = mkOutcome (apply_write (newSalt, issued, newHash, id r) t)
                     [created (prop body "username")] None 1).
  { subst registered. rewrite register_outcome.
    cbn [no_faults f_connect f_begin f_select f_update f_commit].
    rewrite (lookup_unique _ _ _ (proj1 Hwf) Hin Hname), Hnull, Hpass.
    reflexivity. }
  subst t'. rewrite Hreg. cbn [table_after sent].
  set (t' := apply_write (newSalt, issued, newHash, id r) t).
  set (r' := mkRow (id r) (username r) (Some newSalt) (Some issued) (Some newHash)).
  assert (Hin' : In r' t').
  { subst t'. unfold apply_write. apply in_map_iff. exists r. split; [|exact Hin].
    unfold set_credentials. now rewrite Z.eqb_refl. }
  assert (Hnd' : NoDup (map username t')).
  { apply (apply_write_wf (newSalt, issued, newHash, id r) t Hwf). }
  split; [reflexivity|]. split.
  - rewrite (login_on_row pbkdf2 no_faults t' e' body r' eq_refl
               (lookup_unique _ t' r' Hnd' Hin' Hname)).
    rewrite Hpass. cbn [col salt pass_hash token r'].
    rewrite generatePasswordHash_strings. fold newHash.
    assert (E : strict_eq (JString newHash) (JString newHash) = true)
      by now apply strict_eq_strings.
    rewrite E. reflexivity.
  - intros Hcolon.
    change (username r ++ ":" ++ issued) with (username r' ++ String ":" issued).
    apply (authorize_accepts no_faults t' r' issued); try assumption;
      try reflexivity.
    + now rewrite (split_app ":" _ _ Hcolon).
    + rewrite (split_app ":" _ _ Hcolon). cbn [nth_error].
      now rewrite (split_without_separator ":" issued (toString_hex_no_colon _)).
Qed.

End MoreDerivationFacts.

(* ================================================================= *)
(** ** The news feed handlers *)

Lemma has_all_forallb (o : json) (keys : list string) :
  has_key o "hasOwnProperty" = false ->
  has_all o keys = inr (forallb (has_key o) keys).
Proof.
  intros Hown. induction keys as [|k keys IH]; [reflexivity|].
  cbn [has_all forallb]. unfold hasOwnProperty. rewrite Hown.
  destruct (has_key o k); [exact IH | reflexivity].
Qed.

Lemma has_all_own_method (o : json) (k : string) (keys : list string) :
  has_key o "hasOwnProperty" = true ->
  has_all o (k :: keys) = inl (TypeError "hasOwnProperty").
Proof. intros Hown. cbn [has_all]. unfold hasOwnProperty. now rewrite Hown. Qed.

Lemma pushed_rows {A : Type} (rows acc : list A) :
  fold_left (fun posts row => posts ++ [row])%list rows acc = (acc ++ rows)%list.
Proof.
  revert acc. induction rows as [|r rows IH]; intros acc; cbn [fold_left].
  - now rewrite app_nil_r.
  - rewrite IH, <- app_assoc. reflexivity.
Qed.

Lemma StronglySorted_map {A B : Type} (R : A -> A -> Prop) (R' : B -> B -> Prop)
    (g : A -> B) (l : list A) :
  (forall a b, R a b -> R' (g a) (g b)) ->
  StronglySorted R l -> StronglySorted R' (map g l).
Proof.
  intros HR. induction 1 as [|a l Hl IH Hall]; cbn [map]; constructor.
  - exact IH.
  - rewrite Forall_forall in *. intros b Hb.
    apply in_map_iff in Hb as (b0 & <- & Hb0). auto.
Qed.

Section NewsFeed.

Variable mutate : post_statement -> list post -> option (list post).
Variable int8in : string -> option Z.
Variable order_desc : list post -> list post.

(** The authorization condition leaves both tables alone and is false
    without the header. *)
Lemma authorization_eq (f : faults) (headers : list (string * string))
    (s : site) :
  authorization f headers s
  = (s, match header headers "authorization" with
        | None => inr false
        | Some auth => authorize f (auth_table s) auth
        end).
Proof.
  unfold authorization, authorize.
  destruct (header headers "authorization") as [auth|]; [|reflexivity].
  pose proof (authorize_table_after f (auth_table s) auth) as Ht.
  destruct (run f (userIsAuthorized auth) (auth_table s) (fresh []))
    as [[t ss] r].
  cbn in Ht. subst t. now destruct s.
Qed.

(** X12. Creating, modifying and deleting a post need an accepted credential:
    without an authorization header, or with one that
    [userIsAuthorized] resolves to false for, each of the three handlers
    answers 401 and leaves both tables as they were, whatever the store
    would have done with the statement. *)
Theorem post_changes_need_authorization :
  forall (f : faults) (headers : list (string * string)) (postId : string)
         (body : json) (s : site),
    header headers "authorization" = None
    \/ (exists auth, header headers "authorization" = Some auth
                     /\ authorize f (auth_table s) auth = inr false) ->
    createPost mutate f headers body s = (s, unauthorized)
    /\ modifyPost mutate f headers postId body s = (s, unauthorized)
    /\ deletePost mutate f headers postId s = (s, unauthorized).
Proof.
  intros f headers postId body s H.
  unfold createPost, modifyPost, deletePost. rewrite authorization_eq.
  destruct H as [->|(auth & -> & ->)]; repeat split; reflexivity.
Qed.

(** X13. When the credential lookup itself fails, the three handlers catch the
    rejection and answer 500 without touching a table: unlike the login
    handler, they do not let the error escape. *)
Theorem post_changes_answer_500_when_lookup_fails :
  forall (f : faults) (headers : list (string * string)) (postId auth : string)
         (body : json) (s : site),
    header headers "authorization" = Some auth ->
    f_select f = true ->
    createPost mutate f headers body s = (s, unexpected)
    /\ modifyPost mutate f headers postId body s = (s, unexpected)
    /\ deletePost mutate f headers postId s = (s, unexpected).
Proof.
  intros f headers postId auth body s Hh Hf.
  assert (E : authorize f (auth_table s) auth = inl StoreError).
  { unfold authorize, userIsAuthorized. cbn [run exec]. now rewrite Hf. }
  unfold createPost, modifyPost, deletePost.
  rewrite authorization_eq, Hh, E. repeat split; reflexivity.
Qed.

(** X14. The body check of an authorized request. Creating a post is refused
    with 400 exactly when one of title, body, publishDate and createDate is
    not a key of the body; modifying one exactly when one of title, body
    and publishDate is not: a body without createDate can modify but not
    create. A key whose value is null counts as present. In neither case
    is the store asked anything. *)
Theorem post_body_validation :
  forall (f : faults) (headers : list (string * string)) (postId auth : string)
         (body : json) (s : site),
    header headers "authorization" = Some auth ->
    authorize f (auth_table s) auth = inr true ->
    has_key body "hasOwnProperty" = false ->
    (createPost mutate f headers body s = (s, invalid_data)
     <-> forallb (has_key body) ["title"; "body"; "publishDate"; "createDate"]
         = false)
    /\ (modifyPost mutate f headers postId body s = (s, invalid_data)
        <-> forallb (has_key body) ["title"; "body"; "publishDate"] = false).
Proof.
  intros f headers postId auth body s Hh Hauth Hown.
  unfold createPost, modifyPost. rewrite authorization_eq, Hh, Hauth.
  rewrite !(has_all_forallb body _ Hown). unfold query_then, invalid_data.
  split.
  - destruct (forallb (has_key body) ["title"; "body"; "publishDate"; "createDate"]).
    + split; [|discriminate].
      destruct (mutate _ _); intros H; discriminate H.
    + split; reflexivity.
  - destruct (forallb (has_key body) ["title"; "body"; "publishDate"]).
    + split; [|discriminate].
      destruct (mutate _ _); intros H; discriminate H.
    + split; reflexivity.
Qed.

(** X15. A JSON body that has a key named hasOwnProperty shadows the method
    the check calls: an authorized create or modify request with such a
    body is answered 500, whatever else the body holds, and nothing is
    stored. *)
Theorem post_body_with_own_hasOwnProperty :
  forall (f : faults) (headers : list (string * string)) (postId auth : string)
         (body : json) (s : site),
    header headers "authorization" = Some auth ->
    authorize f (auth_table s) auth = inr true ->
    has_key body "hasOwnProperty" = true ->
    createPost mutate f headers body s = (s, unexpected)
    /\ modifyPost mutate f headers postId body s = (s, unexpected).
Proof.
  intros f headers postId auth body s Hh Hauth Hown.
  unfold createPost, modifyPost. rewrite authorization_eq, Hh, Hauth.
  rewrite !(has_all_own_method body _ _ Hown). split; reflexivity.
Qed.

(** X16. Whatever the request and the store, each of the three handlers leaves
    hardball.auth as it was, and changes hardball.posts only by the one
    statement it sends and only when it answers success (201 for create,
    200 for modify and delete). *)
Theorem post_handlers_change_only_on_success :
  forall (f : faults) (headers : list (string * string)) (postId : string)
         (body : json) (s : site),
    let c := createPost mutate f headers body s in
    let m := modifyPost mutate f headers postId body s in
    let d := deletePost mutate f headers postId s in
    auth_table (fst c) = auth_table s
    /\ auth_table (fst m) = auth_table s
    /\ auth_table (fst d) = auth_table s
    /\ (posts_table (fst c) <> posts_table s ->
        fst (snd c) = 201
        /\ mutate (InsertPost (prop body "title") (prop body "body")
                     (prop body "publishDate") (prop body "createDate"))
             (posts_table s) = Some (posts_table (fst c)))
    /\ (posts_table (fst m) <> posts_table s ->
        fst (snd m) = 200
        /\ mutate (UpdatePost (prop body "title") (prop body "body")
                     (prop body "publishDate") postId)
             (posts_table s) = Some (posts_table (fst m)))
    /\ (posts_table (fst d) <> posts_table s ->
        fst (snd d) = 200
        /\ mutate (DeletePost postId) (posts_table s)
           = Some (posts_table (fst d))).
Proof.
  intros f headers postId body s c m d. subst c m d.
  unfold createPost, modifyPost, deletePost. rewrite authorization_eq.
  destruct (match header headers "authorization" with
            | Some auth => authorize f (auth_table s) auth
            | None => inr false
            end) as [x|[|]];
    try (cbn; repeat split; intros; congruence).
  unfold query_then.
  destruct (has_all body ["title"; "body"; "publishDate"; "createDate"])
    as [x1|[|]];
    destruct (has_all body ["title"; "body"; "publishDate"]) as [x2|[|]];
    try destruct (mutate (InsertPost _ _ _ _) _) eqn:Ei;
    try destruct (mutate (UpdatePost _ _ _ _) _) eqn:Eu;
    destruct (mutate (DeletePost _) _) eqn:Ed;
    cbn; repeat split; intros; first [reflexivity | congruence].
Qed.

(* ----------------------------------------------------------------- *)
(** *** Listing the posts *)

(** The answer of the list handler once both bounds have been read as
    bigints. *)
Lemma getPosts_rows (query : json) (s : site) (x y : Z) :
  bind_int8 int8in
    (if truthy (prop query "start") then prop query "start"
     else JNum (-9007199254740991)) = Some (Some x) ->
  bind_int8 int8in
    (if truthy (prop query "end") then prop query "end"
     else JNum 9007199254740991) = Some (Some y) ->
  getPosts int8in order_desc false query s
  = inr (200, [("posts",
                Rows (map listing
                        (order_desc (filter (between x y) (posts_table s)))))]).
Proof.
  intros Hx Hy. unfold getPosts, select_posts. rewrite Hx, Hy.
  now rewrite pushed_rows.
Qed.

Lemma listed_rows (x y : Z) (t : list post) :
  (forall l, Permutation (order_desc l) l) ->
  (forall l, StronglySorted
               (fun a b => newer_first (publish_date a) (publish_date b) = true)
               (order_desc l)) ->
  let rows := map listing (order_desc (filter (between x y) t)) in
  Permutation rows (map listing (filter (between x y) t))
  /\ StronglySorted by_date rows
  /\ (forall v, In v rows ->
        exists d, l_publish_date v = Some d /\ x <= d <= y).
Proof.
  intros Hperm Hsorted rows. subst rows. split; [|split].
  - apply Permutation_map, Hperm.
  - eapply StronglySorted_map; [|apply Hsorted]. intros a b H. exact H.
  - intros v Hv. apply in_map_iff in Hv as (p & <- & Hp).
    apply (Permutation_in _ (Hperm _)) in Hp.
    apply filter_In in Hp as [_ Hb]. unfold between in Hb. cbn [listing l_publish_date].
    destruct (publish_date p) as [d|]; [|discriminate].
    exists d. split; [reflexivity|]. lia.
Qed.

(** X17. Listing with both bounds given. When start and end are non-empty
    strings that the store reads as the bigints x and y, the handler
    answers 200 with exactly the posts whose publish date lies between x
    and y, both ends included, newest first; no credential is asked. *)
Theorem getPosts_between_bounds :
  forall (query : json) (s : site) (a b : string) (x y : Z),
    (forall l, Permutation (order_desc l) l) ->
    (forall l, StronglySorted
                 (fun p q => newer_first (publish_date p) (publish_date q) = true)
                 (order_desc l)) ->
    prop query "start" = JString a -> a <> "" -> int8in a = Some x ->
    prop query "end" = JString b -> b <> "" -> int8in b = Some y ->
    exists rows : list listed,
      getPosts int8in order_desc false query s
      = inr (200, [("posts", Rows rows)])
      /\ Permutation rows (map listing (filter (between x y) (posts_table s)))
      /\ StronglySorted by_date rows
      /\ (forall v, In v rows ->
            exists d, l_publish_date v = Some d /\ x <= d <= y).
Proof.
  intros query s a b x y Hperm Hsorted Ha Hane Hx Hb Hbne Hy.
  exists (map listing (order_desc (filter (between x y) (posts_table s)))).
  split; [|now apply listed_rows].
  apply getPosts_rows; [rewrite Ha | rewrite Hb]; cbn [truthy].
  - apply String.eqb_neq in Hane. rewrite Hane. cbn. now rewrite Hx.
  - apply String.eqb_neq in Hbne. rewrite Hbne. cbn. now rewrite Hy.
Qed.

(** X18. Listing without bounds. When start and end are absent or empty and
    the store reads the two default texts as the numbers they spell, the
    handler lists the posts dated within plus or minus 9007199254740991,
    newest first: a post dated outside that range, or with no publish
    date, is left out, although the column could hold it. *)
Theorem getPosts_default_range :
  forall (query : json) (s : site),
    (forall l, Permutation (order_desc l) l) ->
    (forall l, StronglySorted
                 (fun p q => newer_first (publish_date p) (publish_date q) = true)
                 (order_desc l)) ->
    int8in "-9007199254740991" = Some (-9007199254740991) ->
    int8in "9007199254740991" = Some 9007199254740991 ->
    truthy (prop query "start") = false ->
    truthy (prop query "end") = false ->
    exists rows : list listed,
      getPosts int8in order_desc false query s
      = inr (200, [("posts", Rows rows)])
      /\ Permutation rows
           (map listing
              (filter (between (-9007199254740991) 9007199254740991)
                 (posts_table s)))
      /\ StronglySorted by_date rows
      /\ (forall v, In v rows ->
            exists d, l_publish_date v = Some d
                      /\ -9007199254740991 <= d <= 9007199254740991).
Proof.
  intros query s Hperm Hsorted Hlo Hhi Hstart Hend.
  exists (map listing
            (order_desc (filter (between (-9007199254740991) 9007199254740991)
                           (posts_table s)))).
  split; [|now apply listed_rows].
  apply getPosts_rows; [rewrite Hstart | rewrite Hend];
    unfold bind_int8; cbn [prepareValue].
  - replace (NilZero.string_of_int (Z.to_int (-9007199254740991)))
      with "-9007199254740991" by (vm_compute; reflexivity).
    now rewrite Hlo.
  - replace (NilZero.string_of_int (Z.to_int 9007199254740991))
      with "9007199254740991" by (vm_compute; reflexivity).
    now rewrite Hhi.
Qed.

(** X19. The list handler answers nothing when the query fails: if the store
    reports an error, or rejects a given bound as a bigint, the error is
    thrown from the callback. *)
Theorem getPosts_throws_on_query_error :
  forall (down : bool) (query : json) (s : site) (a : string),
    down = true
    \/ (prop query "start" = JString a /\ a <> "" /\ int8in a = None)
    \/ (prop query "end" = JString a /\ a <> "" /\ int8in a = None) ->
    getPosts int8in order_desc down query s = inl StoreError.
Proof.
  intros down query s a H. unfold getPosts, select_posts.
  destruct down; [reflexivity|].
  destruct H as [H|[(Ha & Hne & Hnone)|(Ha & Hne & Hnone)]]; [discriminate| |];
    rewrite Ha; cbn [truthy]; apply String.eqb_neq in Hne; rewrite Hne;
    cbn [negb].
  - unfold bind_int8 at 1. cbn [prepareValue]. now rewrite Hnone.
  - destruct (bind_int8 int8in
                (if truthy (prop query "start") then prop query "start"
                 else JNum (-9007199254740991))) as [[z|]|];
      unfold bind_int8; cbn [prepareValue]; rewrite ?Hnone; reflexivity.
Qed.

(** X20. The list handler looks at nothing in the query but start and end: two
    queries that agree on these two get the same answer. In particular the
    parameter stop, which the handler's comment documents as the upper
    bound, has no effect. *)
Theorem getPosts_reads_start_and_end_only :
  forall (down : bool) (query query' : json) (s : site),
    prop query "start" = prop query' "start" ->
    prop query "end" = prop query' "end" ->
    getPosts int8in order_desc down query s
    = getPosts int8in order_desc down query' s
    /\ (forall v : jsval,
           getPosts int8in order_desc down (("stop", v) :: query) s
           = getPosts int8in order_desc down query s).
Proof.
  intros down query query' s Hstart Hend. split.
  - unfold getPosts. now rewrite Hstart, Hend.
  - intros v. reflexivity.
Qed.

End NewsFeed.

(* ================================================================= *)
(** ** The sample store of the news feed *)

Lemma newer_first_total (a b : option Z) :
  newer_first a b = false -> newer_first b a = true.
Proof.
  destruct a as [x|], b as [y|]; cbn; try congruence.
  intros H. apply Z.leb_gt in H. apply Z.leb_le. lia.
Qed.

Lemma newer_first_trans (a b c : option Z) :
  newer_first a b = true -> newer_first b c = true -> newer_first a c = true.
Proof.
  destruct a as [x|], b as [y|], c as [z|]; cbn; try congruence.
  rewrite !Z.leb_le. lia.
Qed.

Lemma insert_desc_perm (p : post) (l : list post) :
  Permutation (insert_desc p l) (p :: l).
Proof.
  induction l as [|q l IH]; cbn [insert_desc]; [reflexivity|].
  destruct (newer_first _ _); [reflexivity|].
  rewrite IH. apply perm_swap.
Qed.

Lemma sample_order_perm (l : list post) : Permutation (sample_order l) l.
Proof.
  induction l as [|p l IH]; [reflexivity|].
  cbn [sample_order fold_right]. rewrite insert_desc_perm.
  now apply perm_skip.
Qed.

Lemma insert_desc_sorted (p : post) (l : list post) :
  StronglySorted
    (fun a b => newer_first (publish_date a) (publish_date b) = true) l ->
  StronglySorted
    (fun a b => newer_first (publish_date a) (publish_date b) = true)
    (insert_desc p l).
Proof.
  induction 1 as [|q l Hl IH Hall]; cbn [insert_desc].
  - constructor; constructor.
  - destruct (newer_first (publish_date p) (publish_date q)) eqn:E.
    + constructor; [now constructor|].
      constructor; [exact E|].
      rewrite Forall_forall in *. intros x Hx.
      eapply newer_first_trans; [exact E | now apply Hall].
    + constructor; [exact IH|].
      rewrite Forall_forall in *. intros x Hx.
      apply (Permutation_in _ (insert_desc_perm p l)) in Hx.
      destruct Hx as [<-|Hx]; [now apply newer_first_total | now apply Hall].
Qed.

Lemma sample_order_sorted (l : list post) :
  StronglySorted
    (fun a b => newer_first (publish_date a) (publish_date b) = true)
    (sample_order l).
Proof.
  induction l as [|p l IH]; [constructor|].
  cbn [sample_order fold_right]. now apply insert_desc_sorted.
Qed.

(* ================================================================= *)
(** ** The further theorems at work on the sample data *)

Lemma authorize_own_credentials_witness :
  authorize no_faults sample_table ("alice:" ++ sample_token) = inr true.
Proof.
  apply (authorize_own_credentials no_faults sample_table alice sample_token);
    try reflexivity; [distinct | now left].
Defined.

Lemma authorize_only_colon_free_rows_witness :
  exists (r : row) (k : string),
    In r sample_table /\ token r = Some k
    /\ nth_error (split ":" ("alice:" ++ sample_token ++ ":x")) 0
       = Some (username r)
    /\ nth_error (split ":" ("alice:" ++ sample_token ++ ":x")) 1 = Some k
    /\ contains ":" (username r) = false
    /\ contains ":" k = false.
Proof.
  apply (authorize_only_colon_free_rows no_faults sample_table
           ("alice:" ++ sample_token ++ ":x")).
  vm_compute. reflexivity.
Defined.

Lemma login_ok_is_sound_witness :
  exists (r : row) (password stored_salt stored_hash : string),
    filter (by_username (prop (credentials "alice" "secret") "username"))
      sample_table = [r]
    /\ prop (credentials "alice" "secret") "password" = JString password
    /\ salt r = Some stored_salt
    /\ pass_hash r = Some stored_hash
    /\ generatePasswordHash sample_kdf (JString password) (JString stored_salt)
       = inr stored_hash
    /\ [("user", JString "alice"); ("status", JNum 200);
        ("token", JString sample_token)]
       = [("user", prop (credentials "alice" "secret") "username");
          ("status", JNum 200); ("token", col (token r))].
Proof.
  apply (login_ok_is_sound sample_kdf no_faults sample_table []
           (credentials "alice" "secret")).
  left. vm_compute. reflexivity.
Defined.

Lemma register_non_string_password_throws_witness :
  thrown (handle no_faults (register sample_kdf [("username", JString "bob")])
            sample_table [])
  = Some (TypeError "password")
  /\ done_calls (handle no_faults
                   (register sample_kdf [("username", JString "bob")])
                   sample_table [])
     = 0%nat.
Proof.
  destruct (register_non_string_password_throws sample_kdf no_faults
              sample_table [] [("username", JString "bob")] bob)
    as (Ht & _ & Hd & _); try reflexivity;
    [distinct | right; now left | discriminate | auto].
Defined.

Lemma history_keeps_credentials_whole_witness :
  Forall credentials_whole
    (after sample_kdf
       [(no_faults, [repeat x07 32; repeat x08 32],
         OpRegister (credentials "bob" "pw"));
        (no_faults, [], OpLogin (credentials "bob" "pw"))]
       sample_table).
Proof.
  apply (history_keeps_credentials_whole sample_kdf).
  constructor; [right; do 3 eexists; repeat split; reflexivity|].
  constructor; [left; repeat split; reflexivity | constructor].
Defined.

Lemma register_login_authorize_witness :
  authorize no_faults
    (table_after (handle no_faults (register sample_kdf (credentials "bob" "pw"))
                    sample_table [repeat x07 32; repeat x08 32]))
    ("bob:" ++ toString_hex (repeat x07 32))
  = inr true.
Proof.
  apply (register_login_authorize sample_kdf sample_table
           [repeat x07 32; repeat x08 32] [] (credentials "bob" "pw") bob "pw");
    try reflexivity; [split; distinct | right; now left].
Defined.

Lemma post_changes_need_authorization_witness :
  createPost sample_mutate no_faults [] sample_post sample_site
  = (sample_site, unauthorized)
  /\ deletePost sample_mutate no_faults
       [("authorization", "alice:guess")] "1" sample_site
     = (sample_site, unauthorized).
Proof.
  split.
  - apply (post_changes_need_authorization sample_mutate no_faults [] "1"
             sample_post sample_site).
    left. reflexivity.
  - apply (post_changes_need_authorization sample_mutate no_faults
             [("authorization", "alice:guess")] "1" sample_post sample_site).
    right. exists "alice:guess". split; reflexivity.
Defined.

Lemma post_changes_answer_500_when_lookup_fails_witness :
  modifyPost sample_mutate (mkFaults false false true false false false)
    alice_header "1" sample_post sample_site
  = (sample_site, unexpected).
Proof.
  apply (post_changes_answer_500_when_lookup_fails sample_mutate
           (mkFaults false false true false false false) alice_header "1"
           ("alice:" ++ sample_token) sample_post sample_site);
    reflexivity.
Defined.

Lemma post_body_validation_witness :
  createPost sample_mutate no_faults alice_header
    [("title", JString "T"); ("body", JNull); ("publishDate", JNum 5)]
    sample_site
  = (sample_site, invalid_data)
  /\ modifyPost sample_mutate no_faults alice_header "1"
       [("title", JString "T"); ("body", JNull); ("publishDate", JNum 5)]
       sample_site
     <> (sample_site, invalid_data).
Proof.
  destruct (post_body_validation sample_mutate no_faults alice_header "1"
              ("alice:" ++ sample_token)
              [("title", JString "T"); ("body", JNull); ("publishDate", JNum 5)]
              sample_site) as [Hc Hm]; try reflexivity.
  split.
  - apply Hc. reflexivity.
  - intros H. apply Hm in H. discriminate H.
Defined.

Lemma post_body_with_own_hasOwnProperty_witness :
  createPost sample_mutate no_faults alice_header
    (("hasOwnProperty", JNull) :: sample_post) sample_site
  = (sample_site, unexpected).
Proof.
  apply (post_body_with_own_hasOwnProperty sample_mutate no_faults alice_header
           "1" ("alice:" ++ sample_token)
           (("hasOwnProperty", JNull) :: sample_post) sample_site);
    reflexivity.
Defined.

Lemma getPosts_between_bounds_witness :
  exists rows : list listed,
    getPosts sample_int8in sample_order false
      [("start", JString "1530000000000"); ("end", JString "1540000000000")]
      sample_site
    = inr (200, [("posts", Rows rows)])
    /\ Permutation rows
         (map listing
            (filter (between 1530000000000 1540000000000) sample_posts))
    /\ StronglySorted by_date rows
    /\ (forall v, In v rows ->
          exists d, l_publish_date v = Some d
                    /\ 1530000000000 <= d <= 1540000000000).
Proof.
  apply (getPosts_between_bounds sample_int8in sample_order
           [("start", JString "1530000000000"); ("end", JString "1540000000000")]
           sample_site "1530000000000" "1540000000000");
    try reflexivity;
    [apply sample_order_perm | apply sample_order_sorted
     | discriminate | discriminate].
Defined.

Lemma getPosts_default_range_witness :
  exists rows : list listed,
    getPosts sample_int8in sample_order false [("stop", JString "5")]
      sample_site
    = inr (200, [("posts", Rows rows)])
    /\ Permutation rows
         (map listing
            (filter (between (-9007199254740991) 9007199254740991)
               sample_posts))
    /\ StronglySorted by_date rows
    /\ (forall v, In v rows ->
          exists d, l_publish_date v = Some d
                    /\ -9007199254740991 <= d <= 9007199254740991).
Proof.
  apply (getPosts_default_range sample_int8in sample_order
           [("stop", JString "5")] sample_site);
    try reflexivity; [apply sample_order_perm | apply sample_order_sorted].
Defined.

Lemma getPosts_throws_on_query_error_witness :
  getPosts sample_int8in sample_order false [("start", JString "yesterday")]
    sample_site
  = inl StoreError.
Proof.
  apply (getPosts_throws_on_query_error sample_int8in sample_order false
           [("start", JString "yesterday")] sample_site "yesterday").
  right. left. split; [reflexivity | split; [discriminate | reflexivity]].
Defined.

Lemma getPosts_reads_start_and_end_only_witness :
  getPosts sample_int8in sample_order false
    [("start", JString "1530000000000"); ("stop", JString "1530000000001")]
    sample_site
  = getPosts sample_int8in sample_order false
      [("start", JString "1530000000000")] sample_site.
Proof.
  apply (getPosts_reads_start_and_end_only sample_int8in sample_order false
           [("start", JString "1530000000000"); ("stop", JString "1530000000001")]
           [("start", JString "1530000000000")] sample_site);
    reflexivity.
Defined.

Lemma missing_username_matches_no_row_witness :
  sent (handle no_faults (register sample_kdf [("password", JString "pw")])
          sample_table [])
  = [forbidden]
  /\ sent (handle no_faults (login sample_kdf [("username", JNull)])
             sample_table [])
     = [(401, invalid_credentials JNull)].
Proof.
  split.
  - apply (missing_username_matches_no_row sample_kdf no_faults sample_table []
             [("password", JString "pw")]); reflexivity.
  - apply (missing_username_matches_no_row sample_kdf no_faults sample_table []
             [("username", JNull)]); reflexivity.
Defined.
